(** * Printed text scanner: preprocessing, recognition adapter, ROI mapping

    A shallow embedding of [ocr_utils.py] (preprocess_image,
    extract_text_with_boxes, get_text_boxes, extract_text_from_roi) and of
    [ImageCanvas.get_roi_in_image_coords] from [main.py], followed by the
    properties of the written specification that concern them.

    Python values are modelled as the code has them: [None] as an [option],
    numpy arrays as a shape with a row-major buffer, Python strings as the
    [string] of their UTF-8 bytes, Python [int] as [Z], Python [float] as IEEE-754 binary64
    ([spec_float] with precision 53 and maximal exponent 1024), exceptions as
    values of a result type, and the console and the calls made to the
    recognition engine as an explicit world that is threaded through. *)

From Stdlib Require Import ZArith Lia Bool Ascii String.
From Stdlib Require Import Floats.SpecFloat Reals Lra.
From stdpp Require Import base option list strings gmap.

Local Open Scope string_scope.
Local Open Scope list_scope.
Local Open Scope Z_scope.

(** ** Python run-time: exceptions, results, the world *)

Module Py.

(** The classes of [Exception] that the modelled code can meet. Every one
    of them is a subclass of [Exception], so [except Exception] catches it. *)
Inductive exn_class :=
| ZeroDivisionError
| OverflowError
| ValueError
| IndexError
| KeyError
| TypeError
| RuntimeError
| Cv2Error.

(** An exception instance: its class and what [str(e)] gives. *)
Record exn := Exn { exn_kind : exn_class; exn_str : string }.

(** The outcome of evaluating a Python expression. *)
Inductive result (A : Type) :=
| Return (a : A)
| Raise (e : exn).
Arguments Return {A} a.
Arguments Raise {A} e.

Definition rbind {A B} (r : result A) (k : A -> result B) : result B :=
  match r with
  | Return a => k a
  | Raise e => Raise e
  end.

End Py.
Export Py.

(** ** numpy arrays *)

Module Numpy.

(** [shape] as numpy reports it, [data] the elements in row-major order.
    Pixels are 8-bit unsigned, held as integers. *)
Record ndarray := NdArray { shape : list nat; data : list Z }.

(** [a.size]: the product of the dimensions. *)
Definition size (a : ndarray) : nat := foldr Nat.mul 1%nat (shape a).

(** [a.copy()]. *)
Definition copy (a : ndarray) : ndarray := a.

(** [len(a.shape)]. *)
Definition ndim (a : ndarray) : nat := length (shape a).

(** Python's adjustment of one bound of a slice with step 1 against a
    sequence of length [n] (PySlice_AdjustIndices). *)
Definition adjust_index (i : Z) (n : nat) : nat :=
  let n' := Z.of_nat n in
  if i <? 0 then (if i + n' <? 0 then 0%nat else Z.to_nat (i + n'))
  else if n' <=? i then n else Z.to_nat i.

(** The half-open range [start, stop) that [seq[start:stop]] selects, as
    an offset and a length. *)
Definition slice_range (start stop : Z) (n : nat) : nat * nat :=
  let s := adjust_index start n in
  let e := adjust_index stop n in
  (s, (e - s)%nat).

(** [l[start:stop]] on a list. *)
Definition slice {A} (l : list A) (start stop : Z) : list A :=
  let '(s, k) := slice_range start stop (length l) in
  take k (drop s l).

(** Cuts [l] into consecutive pieces of [k] elements, [n] of them. *)
Fixpoint chunks {A} (k n : nat) (l : list A) : list (list A) :=
  match n with
  | O => []
  | S n' => take k l :: chunks k n' (drop k l)
  end.

(** [a[y0:y1, x0:x1]] for an array of at least two dimensions: the rows in
    range, and in each of them the columns in range, every pixel with all
    of its trailing dimensions. [None] when [a] has fewer than two
    dimensions (numpy raises IndexError: too many indices). *)
Definition getitem2 (a : ndarray) (y0 y1 x0 x1 : Z) : option ndarray :=
  match shape a with
  | h :: w :: rest =>
      let px := foldr Nat.mul 1%nat rest in
      let rows := chunks (w * px) h (data a) in
      let '(_, h') := slice_range y0 y1 h in
      let '(_, w') := slice_range x0 x1 w in
      let rows' := slice rows y0 y1 in
      let cut (row : list Z) := concat (slice (chunks px w row) x0 x1) in
      Some (NdArray (h' :: w' :: rest) (concat (cut <$> rows')))
  | _ => None
  end.

End Numpy.
Export Numpy.

(** ** The world: console output and calls to the recognition engine *)

Module World.

(** One call that reached pytesseract, with the image it was given. *)
Inductive engine_call :=
| Call_image_to_string (img : ndarray)
| Call_image_to_data (img : ndarray).

(** What the modelled functions can change outside their return value:
    the lines printed so far and the engine calls made so far. *)
Record world := MkWorld { console : list string; engine_calls : list engine_call }.

(** A Python computation: from a world to an outcome and a world. *)
Definition M (A : Type) : Type := world -> result A * world.

Definition ret {A} (a : A) : M A := fun w => (Return a, w).

Definition bind {A B} (m : M A) (k : A -> M B) : M B :=
  fun w =>
    match m w with
    | (Return a, w') => k a w'
    | (Raise e, w') => (Raise e, w')
    end.

(** A pure outcome inside a computation. *)
Definition lift {A} (r : result A) : M A := fun w => (r, w).

(** [try: m  except Exception as e: h e]. *)
Definition try_except {A} (m : M A) (h : exn -> M A) : M A :=
  fun w =>
    match m w with
    | (Return a, w') => (Return a, w')
    | (Raise e, w') => h e w'
    end.

(** [print(s)]. *)
Definition print (s : string) : M unit :=
  fun w => (Return tt, MkWorld (console w ++ [s]) (engine_calls w)).

(** Records that the engine was called. *)
Definition record_call (c : engine_call) : M unit :=
  fun w => (Return tt, MkWorld (console w) (engine_calls w ++ [c])).

End World.
Export World.

Declare Scope py_scope.
Delimit Scope py_scope with py.
Notation "x <- m ;; k" := (bind m (fun x => k))
  (at level 100, m at next level, right associativity) : py_scope.
Notation "m ;;; k" := (bind m (fun _ => k))
  (at level 100, right associativity) : py_scope.
Notation "x <~ r ;; k" := (rbind r (fun x => k))
  (at level 100, r at next level, right associativity) : py_scope.

(** ** Python built-ins used by the code *)

Module Builtins.

(** A cell of the table pytesseract returns: an [int] or a [str]. *)
Inductive pyval :=
| PyInt (z : Z)
| PyStr (s : string).

(** [d[k]] on a dict with string keys. *)
Definition subscript_key {V} (d : gmap string V) (k : string) : result V :=
  match d !! k with
  | Some v => Return v
  | None => Raise (Exn KeyError ("'" +:+ k +:+ "'"))
  end.

(** [l[i]] on a list, for an index that [range] produced. *)
Definition subscript_index {V} (l : list V) (i : nat) : result V :=
  match l !! i with
  | Some v => Return v
  | None => Raise (Exn IndexError "list index out of range")
  end.

(** A [str] is held as its UTF-8 encoding.  [str.strip()] removes the
    characters Python counts as white space: U+0009 to U+000D, U+001C to
    U+0020, U+0085, U+00A0, U+1680, U+2000 to U+200A, U+2028, U+2029,
    U+202F, U+205F and U+3000.  Those below U+0080 are one byte each; the
    others are encoded in two or three bytes. *)
Definition is_space (c : ascii) : bool :=
  let n := nat_of_ascii c in
  ((9 <=? n)%nat && (n <=? 13)%nat) || ((28 <=? n)%nat && (n <=? 32)%nat).

(** U+0085 is C2 85 and U+00A0 is C2 A0. *)
Definition is_space2 (a b : ascii) : bool :=
  let '(x, y) := (nat_of_ascii a, nat_of_ascii b) in
  (x =? 194)%nat && ((y =? 133)%nat || (y =? 160)%nat).

(** U+1680 is E1 9A 80; U+2000 to U+200A are E2 80 80 to E2 80 8A; U+2028,
    U+2029 and U+202F are E2 80 A8, E2 80 A9 and E2 80 AF; U+205F is
    E2 81 9F; U+3000 is E3 80 80. *)
Definition is_space3 (a b c : ascii) : bool :=
  let '(x, y, z) := (nat_of_ascii a, nat_of_ascii b, nat_of_ascii c) in
  ((x =? 225)%nat && (y =? 154)%nat && (z =? 128)%nat) ||
  ((x =? 226)%nat && (y =? 128)%nat &&
     (((128 <=? z)%nat && (z <=? 138)%nat) ||
      (z =? 168)%nat || (z =? 169)%nat || (z =? 175)%nat)) ||
  ((x =? 226)%nat && (y =? 129)%nat && (z =? 159)%nat) ||
  ((x =? 227)%nat && (y =? 128)%nat && (z =? 128)%nat).

(** The number of bytes of the white-space character [l] starts with, 0
    when it starts with none. *)
Definition space_len (l : list ascii) : nat :=
  match l with
  | a :: l1 =>
      if is_space a then 1%nat
      else match l1 with
           | b :: l2 =>
               if is_space2 a b then 2%nat
               else match l2 with
                    | c :: _ => if is_space3 a b c then 3%nat else 0%nat
                    | [] => 0%nat
                    end
           | [] => 0%nat
           end
  | [] => 0%nat
  end.

(** The same for the white-space character a string ends with, on the
    bytes of the string from the last to the first. *)
Definition space_len_rev (l : list ascii) : nat :=
  match l with
  | c :: l1 =>
      if is_space c then 1%nat
      else match l1 with
           | b :: l2 =>
               if is_space2 b c then 2%nat
               else match l2 with
                    | a :: _ => if is_space3 a b c then 3%nat else 0%nat
                    | [] => 0%nat
                    end
           | [] => 0%nat
           end
  | [] => 0%nat
  end.

(** Dropping white-space characters from the head for as long as there is
    one; no more than [length l] of them can be dropped. *)
Fixpoint strip_left (len : list ascii -> nat) (fuel : nat) (l : list ascii)
  : list ascii :=
  match fuel with
  | O => l
  | S fuel' =>
      match len l with
      | O => l
      | k => strip_left len fuel' (drop k l)
      end
  end.

Definition lstrip_chars (l : list ascii) : list ascii :=
  strip_left space_len (length l) l.

Definition rstrip_chars (l : list ascii) : list ascii :=
  rev (strip_left space_len_rev (length l) (rev l)).

(** [s.strip()]. *)
Definition strip (s : string) : string :=
  string_of_list_ascii (rstrip_chars (lstrip_chars (list_ascii_of_string s))).

(** Truth value of a [str]: false exactly for the empty string. *)
Definition str_truthy (s : string) : bool :=
  match s with
  | EmptyString => false
  | _ => true
  end.

End Builtins.
Export Builtins.

(** ** OpenCV: flags, and the global threshold *)

Module Cv2.

Inductive threshold_type := THRESH_BINARY | THRESH_BINARY_INV.
Inductive adaptive_method := ADAPTIVE_THRESH_MEAN_C | ADAPTIVE_THRESH_GAUSSIAN_C.
Inductive morph_shape := MORPH_RECT.
Inductive morph_op := MORPH_OPEN | MORPH_CLOSE.

(** [cv2.threshold(src, thresh, maxval, type)] on an 8-bit single-channel
    array, for an integer [thresh].  OpenCV compares the pixels with the
    threshold narrowed to a C [int]: a value in the range of a 32-bit
    signed integer is kept, and what becomes of any other is left to the
    platform's conversion, [cvFloor].  The call returns the threshold it
    was given and the array in which a pixel strictly above the narrowed
    threshold is [maxval] and any other is 0 (the other way round for the
    inverted type). *)
Definition in_int_range (z : Z) : bool := (- 2 ^ 31 <=? z) && (z <? 2 ^ 31).

Definition threshold (cvFloor : Z -> Z) (src : ndarray) (thresh maxval : Z)
  (ty : threshold_type) : Z * ndarray :=
  let ithresh := if in_int_range thresh then thresh else cvFloor thresh in
  let f (p : Z) :=
    match ty with
    | THRESH_BINARY => if ithresh <? p then maxval else 0
    | THRESH_BINARY_INV => if ithresh <? p then 0 else maxval
    end in
  (thresh, NdArray (shape src) (f <$> data src)).

(** [cv2.getStructuringElement(cv2.MORPH_RECT, (w, h))]: all ones. *)
Definition getStructuringElement (s : morph_shape) (w h : nat) : ndarray :=
  NdArray [h; w] (replicate (h * w) 1).

End Cv2.
Export Cv2.

(** ** ocr_utils.py *)

Local Open Scope py_scope.

Section OcrUtils.

(** OpenCV's filters, as the image-processing library provides them: each
    returns an array or raises [cv2.error] on an array it does not accept
    (a colour conversion of an array that has not three or four channels,
    a filter on an array of the wrong depth).  [cvFloor] is the conversion
    of an out-of-range threshold to a C [int]. *)
Variable cvtColor : ndarray -> result ndarray.
Variable medianBlur : ndarray -> Z -> result ndarray.
Variable adaptiveThreshold :
  ndarray -> Z -> adaptive_method -> threshold_type -> Z -> Z -> result ndarray.
Variable morphologyEx : ndarray -> morph_op -> ndarray -> Z -> result ndarray.
Variable cvFloor : Z -> Z.

(** pytesseract on the PIL image made from an array ([Image.fromarray]
    keeps the buffer), and Python's [int] on a [str]. *)
Variable image_to_string : ndarray -> result string.
Variable image_to_data : ndarray -> result (gmap string (list pyval)).
Variable int_of_str : string -> option Z.

(** [preprocess_image(image, mode, threshold)].  No call of OpenCV is
    inside a [try]: an error raised by one of them leaves the function. *)
Definition preprocess_image (image : option ndarray) (mode : string) (threshold : Z)
  : result (option ndarray) :=
  match image with
  | None => Return image
  | Some img =>
      if (size img =? 0)%nat then Return image
      else
        gray <~ (if (ndim img =? 3)%nat then cvtColor img else Return (copy img)) ;;
        denoised <~ medianBlur gray 5 ;;
        if String.eqb mode "Grayscale" then Return (Some denoised)
        else if String.eqb mode "Threshold" then
          let '(_, binary) := Cv2.threshold cvFloor denoised threshold 255 THRESH_BINARY in
          Return (Some binary)
        else if String.eqb mode "Adaptive Threshold" then
          adaptive <~
            adaptiveThreshold denoised 255 ADAPTIVE_THRESH_GAUSSIAN_C THRESH_BINARY 11 2 ;;
          Return (Some adaptive)
        else if String.eqb mode "Morphological" then
          let '(_, binary) := Cv2.threshold cvFloor denoised threshold 255 THRESH_BINARY in
          let kernel := getStructuringElement MORPH_RECT 3 3 in
          morph <~ morphologyEx binary MORPH_CLOSE kernel 1 ;;
          morph <~ morphologyEx morph MORPH_OPEN kernel 1 ;;
          Return (Some morph)
        else Return (Some denoised)
  end.

(** [Image.fromarray(image)]: the PIL image over the same pixels.  PIL
    refuses an array whose shape or type it cannot handle, with an error
    raised inside the caller's [try] and handled there as an error of the
    engine is.  The model gives the refusal no case of its own: the
    engine's parameters below stand for the conversion followed by the
    engine, and a recorded call for an attempt to reach it. *)
Definition fromarray (image : ndarray) : ndarray := image.

(** [pytesseract.image_to_string(pil_image)], the call being recorded. *)
Definition call_image_to_string (pil_image : ndarray) : M string :=
  record_call (Call_image_to_string pil_image) ;;; lift (image_to_string pil_image).

(** [pytesseract.image_to_data(pil_image, output_type=Output.DICT)]. *)
Definition call_image_to_data (pil_image : ndarray) : M (gmap string (list pyval)) :=
  record_call (Call_image_to_data pil_image) ;;; lift (image_to_data pil_image).

(** [extract_text_with_boxes(image)]. *)
Definition extract_text_with_boxes (image : option ndarray) : M string :=
  match image with
  | None => ret ""
  | Some img =>
      if (size img =? 0)%nat then ret ""
      else
        try_except
          (let pil_image := fromarray img in
           text <- call_image_to_string pil_image ;;
           ret (if str_truthy text then strip text else ""))
          (fun e =>
             print ("Error during OCR: " +:+ exn_str e) ;;;
             ret ("Error: " +:+ exn_str e))
  end.

(** [int(v)]. *)
Definition py_int (v : pyval) : result Z :=
  match v with
  | PyInt z => Return z
  | PyStr s =>
      match int_of_str s with
      | Some z => Return z
      | None =>
          Raise (Exn ValueError
                   ("invalid literal for int() with base 10: '" +:+ s +:+ "'"))
      end
  end.

(** [int(data[key][i])]. *)
Definition int_at (d : gmap string (list pyval)) (key : string) (i : nat) : result Z :=
  col <~ subscript_key d key ;;
  v <~ subscript_index col i ;;
  py_int v.

(** A tuple [(x, y, w, h, conf)]. *)
Definition box : Type := Z * Z * Z * Z * Z.

(** The body of the loop of [get_text_boxes], over the indices that remain. *)
Fixpoint boxes_loop (d : gmap string (list pyval)) (idxs : list nat) (boxes : list box)
  : result (list box) :=
  match idxs with
  | [] => Return boxes
  | i :: idxs' =>
      c <~ int_at d "conf" i ;;
      if 0 <? c then
        x <~ int_at d "left" i ;;
        y <~ int_at d "top" i ;;
        w <~ int_at d "width" i ;;
        h <~ int_at d "height" i ;;
        conf <~ int_at d "conf" i ;;
        boxes_loop d idxs' (boxes ++ [(x, y, w, h, conf)])
      else boxes_loop d idxs' boxes
  end.

(** [get_text_boxes(image)]. *)
Definition get_text_boxes (image : option ndarray) : M (list box) :=
  match image with
  | None => ret []
  | Some img =>
      if (size img =? 0)%nat then ret []
      else
        try_except
          (let pil_image := fromarray img in
           d <- call_image_to_data pil_image ;;
           lift (texts <~ subscript_key d "text" ;;
                 boxes_loop d (seq 0 (length texts)) []))
          (fun e =>
             print ("Error getting text boxes: " +:+ exn_str e) ;;;
             ret [])
  end.

(** [image[y:y+h, x:x+w]], with what Python raises when [image] cannot be
    indexed that way. *)
Definition crop (image : option ndarray) (x y w h : Z) : result ndarray :=
  match image with
  | None => Raise (Exn TypeError "'NoneType' object is not subscriptable")
  | Some img =>
      match getitem2 img y (y + h) x (x + w) with
      | Some roi => Return roi
      | None => Raise (Exn IndexError "too many indices for array")
      end
  end.

(** [extract_text_from_roi(image, roi_coords, preprocess_mode, threshold)]. *)
Definition extract_text_from_roi (image : option ndarray) (roi_coords : Z * Z * Z * Z)
  (preprocess_mode : string) (threshold : Z) : M string :=
  let '(x, y, w, h) := roi_coords in
  roi_image <- lift (crop image x y w h) ;;
  if (size roi_image =? 0)%nat then ret ""
  else
    processed <- lift (preprocess_image (Some roi_image) preprocess_mode threshold) ;;
    extract_text_with_boxes processed.

End OcrUtils.

(** ** Python floats *)

Module Float64.

(** A Python [float] is an IEEE-754 binary64 number. *)
Definition prec : Z := 53.
Definition emax : Z := 1024.
Definition float : Type := spec_float.

(** An integer as an unrounded binary number with exponent 0. *)
Definition Z2SF (z : Z) : spec_float :=
  match z with
  | Z0 => S754_zero false
  | Zpos p => S754_finite false p 0
  | Zneg p => S754_finite true p 0
  end.

(** [float(z)], as the conversion an [int] undergoes when it meets a
    [float] in arithmetic: rounded to nearest, ties to even. *)
Definition of_int (z : Z) : result float :=
  match binary_normalize prec emax z 0 false with
  | S754_infinity _ => Raise (Exn OverflowError "int too large to convert to float")
  | f => Return f
  end.

(** [a / b] on two [int]s: the quotient rounded once to the nearest float. *)
Definition int_truediv (a b : Z) : result float :=
  if b =? 0 then Raise (Exn ZeroDivisionError "division by zero")
  else
    match SFdiv prec emax (Z2SF a) (Z2SF b) with
    | S754_infinity _ =>
        Raise (Exn OverflowError "integer division result too large for a float")
    | f => Return f
    end.

(** [a * f] for an [int] and a [float]. *)
Definition int_mul_float (a : Z) (f : float) : result float :=
  fa <~ of_int a ;;
  Return (SFmul prec emax fa f).

(** [int(f)]: the integer part, towards zero. *)
Definition to_int (f : float) : result Z :=
  match f with
  | S754_zero _ => Return 0
  | S754_finite s m e =>
      let a := match e with
               | Zneg k => Z.pos m / 2 ^ Z.pos k
               | _ => Z.pos m * 2 ^ e
               end in
      Return (if s then - a else a)
  | S754_infinity _ =>
      Raise (Exn OverflowError "cannot convert float infinity to integer")
  | S754_nan => Raise (Exn ValueError "cannot convert float NaN to integer")
  end.

(** The number of binary digits of a mantissa. *)
Definition digits (m : positive) : Z := Z.pos (digits2_pos m).

(** A float as an exact fraction: numerator and denominator (a power of
    two); 0 over 1 for zeros, infinities and NaN. *)
Definition numerator (f : float) : Z :=
  match f with
  | S754_finite s m e => (if s then -1 else 1) * (Z.pos m * 2 ^ Z.max 0 e)
  | _ => 0
  end.
Definition denominator (f : float) : Z :=
  match f with
  | S754_finite _ _ e => 2 ^ Z.max 0 (- e)
  | _ => 1
  end.

(** 2 to an integer power, as a real number. *)
Definition bpow2 (e : Z) : R := powerRZ 2 e.

End Float64.

(** ** main.py: the canvas and its region of interest *)

(** A [QRect]: left, top, width and height. *)
Record QRect := MkQRect { rect_x : Z; rect_y : Z; rect_width : Z; rect_height : Z }.

(** The size of a [QPixmap]. *)
Record QPixmap := MkQPixmap { pixmap_width : Z; pixmap_height : Z }.

(** The fields of [ImageCanvas] that the mapping reads. *)
Record ImageCanvas := MkImageCanvas {
  image : option ndarray;
  display_pixmap : option QPixmap;
  roi_rect : option QRect
}.

(** [int(c * scale)]. *)
Definition scaled (c : Z) (scale : Float64.float) : result Z :=
  p <~ Float64.int_mul_float c scale ;;
  Float64.to_int p.

(** The last four assignments of [get_roi_in_image_coords]. *)
Definition clamp_roi (img_w img_h x y w h : Z) : Z * Z * Z * Z :=
  let x := Z.max 0 (Z.min x (img_w - 1)) in
  let y := Z.max 0 (Z.min y (img_h - 1)) in
  let w := Z.max 1 (Z.min w (img_w - x)) in
  let h := Z.max 1 (Z.min h (img_h - y)) in
  (x, y, w, h).

(** The scaled coordinate the written specification asks for: the exact
    quotient [c * src / disp] rounded to the nearest integer, halves up. *)
Definition spec_round_scaled (c src disp : Z) : Z :=
  (2 * c * src + disp) / (2 * disp).

(** The range of a C [int], which Qt and OpenCV use for coordinates and
    sizes. *)
Definition int32 (z : Z) : Prop := - 2 ^ 31 <= z < 2 ^ 31.

(** The four products before clamping. *)
Definition scale_roi (r : QRect) (img_w img_h display_w display_h : Z)
  : result (Z * Z * Z * Z) :=
  scale_x <~ Float64.int_truediv img_w display_w ;;
  scale_y <~ Float64.int_truediv img_h display_h ;;
  x <~ scaled (rect_x r) scale_x ;;
  y <~ scaled (rect_y r) scale_y ;;
  w <~ scaled (rect_width r) scale_x ;;
  h <~ scaled (rect_height r) scale_y ;;
  Return (x, y, w, h).

(** [ImageCanvas.get_roi_in_image_coords(self)]. *)
Definition get_roi_in_image_coords (self : ImageCanvas) : result (option (Z * Z * Z * Z)) :=
  match roi_rect self, image self, display_pixmap self with
  | Some r, Some img, Some pm =>
      match shape img with
      | h :: w :: _ =>
          let img_h := Z.of_nat h in
          let img_w := Z.of_nat w in
          let display_w := pixmap_width pm in
          let display_h := pixmap_height pm in
          xywh <~ scale_roi r img_w img_h display_w display_h ;;
          let '(x, y, w, h) := xywh in
          Return (Some (clamp_roi img_w img_h x y w h))
      | _ => Raise (Exn ValueError "not enough values to unpack (expected 2)")
      end
  | _, _, _ => Return None
  end.

(** ** The engine's table and its candidates *)

(** One row of the table pytesseract returns. *)
Record candidate := MkCandidate {
  cand_left : Z;
  cand_top : Z;
  cand_width : Z;
  cand_height : Z;
  cand_conf : Z;
  cand_text : string
}.

(** The tuple [get_text_boxes] makes of a row. *)
Definition box_of (c : candidate) : box :=
  (cand_left c, cand_top c, cand_width c, cand_height c, cand_conf c).

(** [d] holds the rows [cands], column by column, in their order. *)
Definition table_of (d : gmap string (list pyval)) (cands : list candidate) : Prop :=
  d !! "text" = Some ((fun c => PyStr (cand_text c)) <$> cands) /\
  d !! "conf" = Some ((fun c => PyInt (cand_conf c)) <$> cands) /\
  d !! "left" = Some ((fun c => PyInt (cand_left c)) <$> cands) /\
  d !! "top" = Some ((fun c => PyInt (cand_top c)) <$> cands) /\
  d !! "width" = Some ((fun c => PyInt (cand_width c)) <$> cands) /\
  d !! "height" = Some ((fun c => PyInt (cand_height c)) <$> cands).

(** The table with exactly the six columns the code reads. *)
Definition make_table (cands : list candidate) : gmap string (list pyval) :=
  <["text" := (fun c => PyStr (cand_text c)) <$> cands]>
  (<["conf" := (fun c => PyInt (cand_conf c)) <$> cands]>
  (<["left" := (fun c => PyInt (cand_left c)) <$> cands]>
  (<["top" := (fun c => PyInt (cand_top c)) <$> cands]>
  (<["width" := (fun c => PyInt (cand_width c)) <$> cands]>
  (<["height" := (fun c => PyInt (cand_height c)) <$> cands]> ∅))))).

(** The four modes the documentation of [preprocess_image] lists. *)
Definition known_mode (mode : string) : Prop :=
  mode = "Grayscale" \/ mode = "Threshold" \/
  mode = "Adaptive Threshold" \/ mode = "Morphological".

(** [a.shape[0]] and [a.shape[1]]. *)
Definition img_height (a : ndarray) : nat := nth 0 (shape a) 0%nat.
Definition img_width (a : ndarray) : nat := nth 1 (shape a) 0%nat.

(** ** Stand-ins for the external libraries on small inputs *)

Module Doubles.

(** Luma of one BGR pixel, in 14-bit fixed point. *)
Definition luma (px : list Z) : Z :=
  match px with
  | [b; g; r] => (b * 1868 + g * 9617 + r * 4899 + 8192) / 16384
  | _ => 0
  end.

(** BGR to gray: one value per pixel, the first two dimensions kept; an
    array that has not three channels is refused. *)
Definition gray_of_bgr (a : ndarray) : result ndarray :=
  match shape a with
  | [h; w; 3%nat] =>
      Return (NdArray [h; w] (luma <$> chunks 3 (h * w) (data a)))
  | _ => Raise (Exn Cv2Error "Invalid number of channels in input image")
  end.

(** A median filter leaves an image of one single value as it is. *)
Definition blur_flat (a : ndarray) (ksize : Z) : result ndarray := Return a.

(** On an image of one single value every pixel is above its neighbourhood
    mean minus a positive constant. *)
Definition adaptive_flat (a : ndarray) (maxval : Z) (m : adaptive_method)
  (ty : threshold_type) (block c : Z) : result ndarray :=
  Return (NdArray (shape a) ((fun _ => maxval) <$> data a)).

(** Closing and opening leave an image of one single value as it is. *)
Definition morph_flat (a : ndarray) (op : morph_op) (kernel : ndarray) (it : Z)
  : result ndarray := Return a.

(** An out-of-range threshold on a platform whose conversion gives the
    least [int]. *)
Definition floor_min (z : Z) : Z := - 2 ^ 31.

(** An engine that recognises nothing. *)
Definition silent_string (a : ndarray) : result string := Return "".
Definition silent_data (a : ndarray) : result (gmap string (list pyval)) :=
  Return (make_table []).

(** An engine that is not installed. *)
Definition tesseract_missing : exn :=
  Exn RuntimeError "tesseract is not installed or it's not in your PATH".
Definition broken_string (a : ndarray) : result string := Raise tesseract_missing.
Definition broken_data (a : ndarray) : result (gmap string (list pyval)) :=
  Raise tesseract_missing.

(** No [str] is a number. *)
Definition no_int (s : string) : option Z := None.

(** A gray image of one pixel, a gray image of two by two, and a world in
    which nothing has happened yet. *)
Definition one_pixel : ndarray := NdArray [1%nat; 1%nat] [7].
Definition two_by_two : ndarray := NdArray [2%nat; 2%nat] [9; 9; 9; 9].
Definition fresh : world := MkWorld [] [].

End Doubles.

(** * Properties of ocr_utils.py *)

Section PreprocessFacts.

Variable cvtColor : ndarray -> result ndarray.
Variable medianBlur : ndarray -> Z -> result ndarray.
Variable adaptiveThreshold :
  ndarray -> Z -> adaptive_method -> threshold_type -> Z -> Z -> result ndarray.
Variable morphologyEx : ndarray -> morph_op -> ndarray -> Z -> result ndarray.
Variable cvFloor : Z -> Z.

Local Abbreviation preprocess :=
  (preprocess_image cvtColor medianBlur adaptiveThreshold morphologyEx cvFloor).

(** The gray image [preprocess_image] works on, and its denoised form:
    what lines 29-35 compute, or the error they raise. *)
Definition gray_of (img : ndarray) : result ndarray :=
  if (ndim img =? 3)%nat then cvtColor img else Return (copy img).
Definition denoised_of (img : ndarray) : result ndarray :=
  gray <~ gray_of img ;; medianBlur gray 5.

(** An image as the application loads it: rows by columns of gray values,
    or rows by columns by three channels. *)
Definition gray_or_bgr (img : ndarray) : Prop :=
  (exists h w, shape img = [h; w]) \/ (exists h w, shape img = [h; w; 3%nat]).

Lemma eqb_known_false mode :
  ~ known_mode mode ->
  String.eqb mode "Grayscale" = false /\ String.eqb mode "Threshold" = false /\
  String.eqb mode "Adaptive Threshold" = false /\
  String.eqb mode "Morphological" = false.
Proof.
  unfold known_mode. intros H.
  repeat split; apply String.eqb_neq; intros ->; apply H; auto.
Qed.

Lemma size_nonzero_eqb (a : ndarray) : size a <> 0%nat -> (size a =? 0)%nat = false.
Proof. intros H. now apply Nat.eqb_neq. Qed.

(** After the guard, [preprocess_image] is the denoising followed by the
    branch on the mode. *)
Lemma preprocess_after_denoise (img den : ndarray) (mode : string) (t : Z) :
  size img <> 0%nat -> denoised_of img = Return den ->
  preprocess (Some img) mode t =
    if String.eqb mode "Grayscale" then Return (Some den)
    else if String.eqb mode "Threshold" then
      Return (Some (snd (Cv2.threshold cvFloor den t 255 THRESH_BINARY)))
    else if String.eqb mode "Adaptive Threshold" then
      adaptive <~
        adaptiveThreshold den 255 ADAPTIVE_THRESH_GAUSSIAN_C THRESH_BINARY 11 2 ;;
      Return (Some adaptive)
    else if String.eqb mode "Morphological" then
      morph <~ morphologyEx (snd (Cv2.threshold cvFloor den t 255 THRESH_BINARY))
                 MORPH_CLOSE (getStructuringElement MORPH_RECT 3 3) 1 ;;
      morph <~ morphologyEx morph MORPH_OPEN (getStructuringElement MORPH_RECT 3 3) 1 ;;
      Return (Some morph)
    else Return (Some den).
Proof.
  intros Hs Hd. unfold preprocess_image. rewrite (size_nonzero_eqb _ Hs).
  unfold denoised_of, gray_of in Hd.
  destruct (if (ndim img =? 3)%nat then cvtColor img else Return (copy img))
    as [gray|e]; simpl in Hd; [|discriminate].
  simpl. rewrite Hd. reflexivity.
Qed.

(** When the denoising raises, so does [preprocess_image], in every mode. *)
Lemma preprocess_denoise_raises (img : ndarray) (e : exn) (mode : string) (t : Z) :
  size img <> 0%nat -> denoised_of img = Raise e ->
  preprocess (Some img) mode t = Raise e.
Proof.
  intros Hs Hd. unfold preprocess_image. rewrite (size_nonzero_eqb _ Hs).
  unfold denoised_of, gray_of in Hd.
  destruct (if (ndim img =? 3)%nat then cvtColor img else Return (copy img))
    as [gray|e']; simpl in Hd |- *; [now rewrite Hd | congruence].
Qed.

(** In its range a threshold is compared as it is. *)
Lemma threshold_in_range (den : ndarray) (t maxval : Z) :
  - 2 ^ 31 <= t < 2 ^ 31 ->
  snd (Cv2.threshold cvFloor den t maxval THRESH_BINARY) =
    NdArray (shape den) ((fun p => if t <? p then maxval else 0) <$> data den).
Proof.
  intros Ht. unfold Cv2.threshold, in_int_range.
  replace ((- 2 ^ 31 <=? t) && (t <? 2 ^ 31)) with true; [reflexivity|].
  symmetry. apply andb_true_iff. split; [apply Z.leb_le | apply Z.ltb_lt]; lia.
Qed.

(** C1 (as the code has it): a mode outside the four documented ones is
    not refused; the call does what it does in mode Grayscale, result or
    error alike, and whenever the conversion to gray and the median filter
    return for a non-empty image it returns the denoised gray image. *)
Theorem preprocess_unknown_mode_falls_back (image : option ndarray) (mode : string)
  (threshold : Z) :
  ~ known_mode mode ->
  preprocess image mode threshold = preprocess image "Grayscale" threshold /\
  (forall img den, image = Some img -> size img <> 0%nat ->
     denoised_of img = Return den ->
     preprocess image mode threshold = Return (Some den)).
Proof.
  intros Hm. destruct (eqb_known_false mode Hm) as (E1 & E2 & E3 & E4). split.
  - destruct image as [img|]; [|reflexivity].
    destruct (Nat.eq_dec (size img) 0%nat) as [Hs|Hs].
    + unfold preprocess_image. apply Nat.eqb_eq in Hs. now rewrite Hs.
    + destruct (denoised_of img) as [den|e] eqn:Hd.
      * rewrite !(preprocess_after_denoise img den) by assumption.
        now rewrite E1, E2, E3, E4.
      * now rewrite !(preprocess_denoise_raises img e) by assumption.
  - intros img den -> Hs Hd. rewrite (preprocess_after_denoise img den) by assumption.
    now rewrite E1, E2, E3, E4.
Qed.

(** What OpenCV guarantees for the calls [preprocess_image] makes, on the
    arrays it accepts: the conversion of a non-empty three-channel array
    returns a gray array of the same height and width, and the median
    filter of size 5, the adaptive threshold and the opening and closing by
    the three by three square each return, on a non-empty gray array, an
    array of the same shape. *)
Hypothesis cvtColor_bgr :
  forall a h w, shape a = [h; w; 3%nat] -> size a <> 0%nat ->
    exists g, cvtColor a = Return g /\ shape g = [h; w].
Hypothesis medianBlur_gray :
  forall a, ndim a = 2%nat -> size a <> 0%nat ->
    exists b, medianBlur a 5 = Return b /\ shape b = shape a.
Hypothesis adaptiveThreshold_gray :
  forall a, ndim a = 2%nat -> size a <> 0%nat ->
    exists r, adaptiveThreshold a 255 ADAPTIVE_THRESH_GAUSSIAN_C THRESH_BINARY 11 2
                = Return r /\ shape r = shape a.
Hypothesis morphologyEx_gray :
  forall a op, ndim a = 2%nat -> size a <> 0%nat ->
    exists r, morphologyEx a op (getStructuringElement MORPH_RECT 3 3) 1 = Return r /\
              shape r = shape a.

(** On a non-empty gray or three-channel image the conversion and the
    denoising return, and keep the height and the width. *)
Lemma denoised_of_returns (img : ndarray) :
  size img <> 0%nat -> gray_or_bgr img ->
  exists gray den,
    gray_of img = Return gray /\ denoised_of img = Return den /\
    shape gray = [img_height img; img_width img] /\
    shape den = shape gray /\ size den <> 0%nat.
Proof using cvtColor_bgr medianBlur_gray.
  intros Hs Hg.
  assert (G : exists gray, gray_of img = Return gray /\
            shape gray = [img_height img; img_width img] /\ size gray <> 0%nat).
  { unfold gray_of, ndim, img_height, img_width, copy.
    destruct Hg as [(h & w & E) | (h & w & E)]; rewrite E; simpl.
    - exists img. now rewrite E.
    - destruct (cvtColor_bgr img h w E Hs) as (g & Hg & Sg). exists g.
      split; [exact Hg|]. split; [exact Sg|].
      unfold size in *. rewrite Sg. rewrite E in Hs. simpl in *. nia. }
  destruct G as (gray & Eg & Sg & Ng). exists gray.
  destruct (medianBlur_gray gray) as (den & Hb & Sb);
    [unfold ndim; now rewrite Sg | exact Ng |].
  exists den. unfold denoised_of. rewrite Eg. simpl.
  repeat split; try assumption. unfold size in *. now rewrite Sb.
Qed.

(** C8: in mode Threshold, with a threshold between 0 and 255, the call
    returns for a non-empty gray or three-channel image an array of the
    shape of the denoised gray image, each of whose pixels is 255 where the
    denoised pixel is strictly above the threshold and 0 elsewhere; so
    every pixel is 0 or 255. *)
Theorem preprocess_threshold_binary (img : ndarray) (t : Z) :
  size img <> 0%nat -> gray_or_bgr img -> 0 <= t <= 255 ->
  exists den out,
    denoised_of img = Return den /\
    preprocess (Some img) "Threshold" t = Return (Some out) /\
    shape out = shape den /\
    data out = (fun p => if t <? p then 255 else 0) <$> data den /\
    Forall (fun p => p = 0 \/ p = 255) (data out).
Proof using cvtColor_bgr medianBlur_gray.
  intros Hs Hg Ht. destruct (denoised_of_returns img Hs Hg) as (gray & den & _ & Hd & _).
  exists den. eexists. split; [exact Hd|].
  rewrite (preprocess_after_denoise img den) by assumption.
  rewrite threshold_in_range by lia. simpl. split; [reflexivity|]. simpl. repeat split.
  apply Forall_fmap, Forall_true. intros q. simpl. destruct (t <? q); auto.
Qed.

(** C9: for a non-empty gray or three-channel image, every threshold and
    each of the four modes, the call returns an array that has the shape of
    the gray conversion of the input, and so the height and width of the
    input. *)
Theorem preprocess_keeps_dimensions (img : ndarray) (mode : string) (threshold : Z) :
  size img <> 0%nat -> gray_or_bgr img -> known_mode mode ->
  exists gray out,
    gray_of img = Return gray /\
    preprocess (Some img) mode threshold = Return (Some out) /\
    shape out = shape gray /\
    img_height out = img_height img /\ img_width out = img_width img.
Proof using cvtColor_bgr medianBlur_gray adaptiveThreshold_gray morphologyEx_gray.
  intros Hs Hg Hm.
  destruct (denoised_of_returns img Hs Hg) as (gray & den & Eg & Hd & Sg & Sb & Zd).
  exists gray.
  assert (K : forall out, shape out = shape den ->
            shape out = shape gray /\
            img_height out = img_height img /\ img_width out = img_width img).
  { intros out E. unfold img_height at 1, img_width at 1. rewrite E, Sb, Sg. auto. }
  assert (N : forall a, shape a = shape den -> ndim a = 2%nat /\ size a <> 0%nat).
  { intros a E. unfold ndim, size in *. rewrite E. split; [now rewrite Sb, Sg | exact Zd]. }
  rewrite (preprocess_after_denoise img den) by assumption.
  destruct Hm as [-> | [-> | [-> | ->]]]; simpl.
  - exists den. auto.
  - eexists. split; [exact Eg|]. split; [reflexivity|]. apply K. reflexivity.
  - destruct (N den eq_refl) as [Nd Zd'].
    destruct (adaptiveThreshold_gray den Nd Zd') as (r & Hr & Sr).
    rewrite Hr. simpl. exists r. auto.
  - set (bin := NdArray _ _).
    destruct (N bin eq_refl) as [Nb Zb].
    destruct (morphologyEx_gray bin MORPH_CLOSE Nb Zb) as (m1 & H1 & S1).
    rewrite H1. simpl.
    destruct (N m1 S1) as [N1 Z1].
    destruct (morphologyEx_gray m1 MORPH_OPEN N1 Z1) as (m2 & H2 & S2).
    rewrite H2. simpl. exists m2. split; [exact Eg|]. split; [reflexivity|].
    apply K. now rewrite S2, S1.
Qed.

End PreprocessFacts.

Section RecognitionFacts.

Variable cvtColor : ndarray -> result ndarray.
Variable medianBlur : ndarray -> Z -> result ndarray.
Variable adaptiveThreshold :
  ndarray -> Z -> adaptive_method -> threshold_type -> Z -> Z -> result ndarray.
Variable morphologyEx : ndarray -> morph_op -> ndarray -> Z -> result ndarray.
Variable cvFloor : Z -> Z.
Variable image_to_string : ndarray -> result string.
Variable image_to_data : ndarray -> result (gmap string (list pyval)).
Variable int_of_str : string -> option Z.

Local Abbreviation preprocess :=
  (preprocess_image cvtColor medianBlur adaptiveThreshold morphologyEx cvFloor).
Local Abbreviation recognize := (extract_text_with_boxes image_to_string).
Local Abbreviation detect := (get_text_boxes image_to_data int_of_str).
Local Abbreviation roi_ocr :=
  (extract_text_from_roi cvtColor medianBlur adaptiveThreshold morphologyEx cvFloor
     image_to_string).

(** The image is [None] or has no element. *)
Definition absent_or_empty (image : option ndarray) : Prop :=
  image = None \/ exists img, image = Some img /\ size img = 0%nat.

(** The world after one more call of the engine. *)
Definition after_call (c : engine_call) (w : world) : world :=
  MkWorld (console w) (engine_calls w ++ [c]).

(** The world after one more call of the engine and one more printed line. *)
Definition after_failed_call (c : engine_call) (line : string) (w : world) : world :=
  MkWorld (console w ++ [line]) (engine_calls w ++ [c]).

(** C10: on an absent or empty image, preprocessing returns the image as it
    is, text extraction returns the empty string and block detection the
    empty list, and the world, with its record of engine calls, is left
    as it was. *)
Theorem empty_image_is_noop (image : option ndarray) (mode : string) (threshold : Z)
  (w : world) :
  absent_or_empty image ->
  preprocess image mode threshold = Return image /\
  recognize image w = (Return "", w) /\
  detect image w = (Return [], w).
Proof.
  unfold preprocess_image, extract_text_with_boxes, get_text_boxes.
  intros [-> | (img & -> & Hs)]; [easy|].
  now rewrite Hs.
Qed.

(** Reading one cell of a column that holds the integers of the rows. *)
Lemma int_at_column (d : gmap string (list pyval)) (key : string)
  (f : candidate -> Z) (pre rest : list candidate) (c : candidate) :
  d !! key = Some ((fun c => PyInt (f c)) <$> (pre ++ c :: rest)) ->
  int_at int_of_str d key (length pre) = Return (f c).
Proof.
  intros H. unfold int_at, subscript_key, subscript_index. rewrite H. simpl.
  rewrite list_lookup_fmap, list_lookup_middle by reflexivity. reflexivity.
Qed.

(** The loop, started in the middle of the table. *)
Lemma boxes_loop_from (d : gmap string (list pyval)) (rest pre : list candidate)
  (acc : list box) :
  table_of d (pre ++ rest) ->
  boxes_loop int_of_str d (seq (length pre) (length rest)) acc =
  Return (acc ++ (box_of <$> filter (fun c => 0 < cand_conf c) rest)).
Proof.
  revert pre acc. induction rest as [|c rest IH]; intros pre acc Ht.
  - simpl. now rewrite app_nil_r.
  - pose proof Ht as (_ & Hc & Hl & Htop & Hw & Hh).
    simpl. rewrite (int_at_column d "conf" cand_conf pre rest c Hc). simpl.
    assert (Ht' : table_of d ((pre ++ [c]) ++ rest)) by now rewrite <- app_assoc.
    specialize (IH (pre ++ [c])). rewrite length_app, Nat.add_1_r in IH.
    rewrite filter_cons. destruct (0 <? cand_conf c) eqn:E.
    + rewrite (int_at_column d "left" cand_left pre rest c Hl),
        (int_at_column d "top" cand_top pre rest c Htop),
        (int_at_column d "width" cand_width pre rest c Hw),
        (int_at_column d "height" cand_height pre rest c Hh). simpl.
      rewrite IH by exact Ht'. apply Z.ltb_lt in E.
      rewrite decide_True by exact E. simpl. now rewrite <- app_assoc.
    + rewrite IH by exact Ht'. apply Z.ltb_ge in E.
      rewrite decide_False by lia. reflexivity.
Qed.

(** C6: when the engine answers with the rows [cands], block detection on a
    non-empty image returns the tuples of exactly the rows whose confidence
    is strictly positive, in the order of the rows, after one call of the
    engine. *)
Theorem detect_keeps_positive_confidence (img : ndarray) (cands : list candidate)
  (d : gmap string (list pyval)) (w : world) :
  size img <> 0%nat ->
  image_to_data img = Return d ->
  table_of d cands ->
  detect (Some img) w =
  (Return (box_of <$> filter (fun c => 0 < cand_conf c) cands),
   after_call (Call_image_to_data img) w).
Proof.
  intros Hs He Ht. unfold get_text_boxes. rewrite (size_nonzero_eqb _ Hs).
  unfold try_except, call_image_to_data, bind, record_call, lift, fromarray.
  rewrite He. pose proof Ht as (Htext & _).
  unfold subscript_key. rewrite Htext. simpl. rewrite length_fmap.
  pose proof (boxes_loop_from d cands [] [] Ht) as Hl. simpl in Hl.
  now rewrite Hl.
Qed.

(** C7 (as the code has it): when the engine raises [e] on a non-empty
    image, neither operation raises; text extraction prints a line and
    returns the text "Error: " followed by the message of [e], and block
    detection prints a line and returns the empty list. *)
Theorem engine_failure_is_caught (img : ndarray) (e e' : exn) (w : world) :
  size img <> 0%nat ->
  image_to_string img = Raise e ->
  image_to_data img = Raise e' ->
  recognize (Some img) w =
    (Return ("Error: " +:+ exn_str e),
     after_failed_call (Call_image_to_string img)
       ("Error during OCR: " +:+ exn_str e) w) /\
  detect (Some img) w =
    (Return [],
     after_failed_call (Call_image_to_data img)
       ("Error getting text boxes: " +:+ exn_str e') w).
Proof.
  intros Hs He He'. unfold extract_text_with_boxes, get_text_boxes.
  rewrite (size_nonzero_eqb _ Hs).
  unfold try_except, call_image_to_string, call_image_to_data, bind, record_call,
    lift, fromarray. now rewrite He, He'.
Qed.

(** C2 (as the code has it): when the crop of the image to the region has
    no element, the operation returns the empty string, raises nothing, and
    leaves the world, with its record of engine calls, as it was. *)
Theorem roi_ocr_empty_crop (image : option ndarray) (x y w h : Z) (mode : string)
  (threshold : Z) (roi : ndarray) (wd : world) :
  crop image x y w h = Return roi ->
  size roi = 0%nat ->
  roi_ocr image (x, y, w, h) mode threshold wd = (Return "", wd).
Proof.
  intros Hc Hs. unfold extract_text_from_roi, bind, lift. rewrite Hc, Hs. reflexivity.
Qed.

End RecognitionFacts.

(** ** The same facts on concrete inputs *)

Section ConcreteOcr.

Import Doubles.

Local Abbreviation preprocess_d :=
  (preprocess_image gray_of_bgr blur_flat adaptive_flat morph_flat floor_min).

Lemma sepia_unknown : ~ known_mode "Sepia".
Proof. unfold known_mode. intros [H | [H | [H | H]]]; discriminate H. Qed.

(** C1, at the mode "Sepia" on a one-pixel image. *)
Lemma preprocess_unknown_mode_falls_back_witness :
  preprocess_d (Some one_pixel) "Sepia" 127 =
    preprocess_d (Some one_pixel) "Grayscale" 127 /\
  (forall img den, Some one_pixel = Some img -> size img <> 0%nat ->
     denoised_of gray_of_bgr blur_flat img = Return den ->
     preprocess_d (Some one_pixel) "Sepia" 127 = Return (Some den)).
Proof.
  exact (preprocess_unknown_mode_falls_back gray_of_bgr blur_flat adaptive_flat
           morph_flat floor_min (Some one_pixel) "Sepia" 127 sepia_unknown).
Defined.

(** C1 fails as stated: the mode "Sepia" is none of the four, and the call
    returns the denoised image instead of raising. *)
Lemma unknown_mode_returns_normally :
  ~ known_mode "Sepia" /\
  preprocess_d (Some one_pixel) "Sepia" 127 = Return (Some one_pixel) /\
  ~ (exists e, preprocess_d (Some one_pixel) "Sepia" 127 = Raise e).
Proof.
  split; [exact sepia_unknown|]. split; [reflexivity|]. intros [e H]. discriminate H.
Qed.

(** The stand-ins keep what OpenCV guarantees. *)
Lemma gray_of_bgr_bgr (a : ndarray) (h w : nat) :
  shape a = [h; w; 3%nat] -> size a <> 0%nat ->
  exists g, gray_of_bgr a = Return g /\ shape g = [h; w].
Proof. intros E _. unfold gray_of_bgr. rewrite E. eexists. split; reflexivity. Qed.

Lemma blur_flat_gray (a : ndarray) :
  ndim a = 2%nat -> size a <> 0%nat ->
  exists b, blur_flat a 5 = Return b /\ shape b = shape a.
Proof. intros _ _. exists a. split; reflexivity. Qed.

Lemma adaptive_flat_gray (a : ndarray) :
  ndim a = 2%nat -> size a <> 0%nat ->
  exists r, adaptive_flat a 255 ADAPTIVE_THRESH_GAUSSIAN_C THRESH_BINARY 11 2 = Return r /\
            shape r = shape a.
Proof. intros _ _. eexists. split; reflexivity. Qed.

Lemma morph_flat_gray (a : ndarray) (op : morph_op) :
  ndim a = 2%nat -> size a <> 0%nat ->
  exists r, morph_flat a op (getStructuringElement MORPH_RECT 3 3) 1 = Return r /\
            shape r = shape a.
Proof. intros _ _. exists a. split; reflexivity. Qed.

(** C8, at threshold 5 on a one-pixel image of value 7. *)
Lemma preprocess_threshold_binary_witness :
  exists den out,
    denoised_of gray_of_bgr blur_flat one_pixel = Return den /\
    preprocess_d (Some one_pixel) "Threshold" 5 = Return (Some out) /\
    shape out = shape den /\
    data out = (fun p => if 5 <? p then 255 else 0) <$> data den /\
    Forall (fun p => p = 0 \/ p = 255) (data out).
Proof.
  apply (preprocess_threshold_binary gray_of_bgr blur_flat adaptive_flat morph_flat
           floor_min gray_of_bgr_bgr blur_flat_gray one_pixel 5).
  - vm_compute. discriminate.
  - left. exists 1%nat, 1%nat. reflexivity.
  - lia.
Defined.

(** A colour image of one pixel. *)
Definition one_bgr_pixel : ndarray := NdArray [1%nat; 1%nat; 3%nat] [10; 20; 30].

(** C9, in mode Morphological on a colour image of one pixel. *)
Lemma preprocess_keeps_dimensions_witness :
  exists gray out,
    gray_of gray_of_bgr one_bgr_pixel = Return gray /\
    preprocess_d (Some one_bgr_pixel) "Morphological" 127 = Return (Some out) /\
    shape out = shape gray /\
    img_height out = img_height one_bgr_pixel /\
    img_width out = img_width one_bgr_pixel.
Proof.
  apply (preprocess_keeps_dimensions gray_of_bgr blur_flat adaptive_flat morph_flat
           floor_min gray_of_bgr_bgr blur_flat_gray adaptive_flat_gray morph_flat_gray
           one_bgr_pixel "Morphological" 127).
  - vm_compute. discriminate.
  - right. exists 1%nat, 1%nat. reflexivity.
  - unfold known_mode. tauto.
Defined.

(** The conversion to gray is outside any [try]: on an array of two
    channels it raises, and the error leaves [preprocess_image]. *)
Example preprocess_two_channels_raises :
  preprocess_d (Some (NdArray [1%nat; 1%nat; 2%nat] [10; 20])) "Grayscale" 127 =
  Raise (Exn Cv2Error "Invalid number of channels in input image").
Proof. reflexivity. Qed.

(** An array of no rows. *)
Definition no_rows : ndarray := NdArray [0%nat; 5%nat] [].

(** C10, on an image of no rows with an engine that would raise. *)
Lemma empty_image_is_noop_witness :
  preprocess_d (Some no_rows) "Threshold" 127 = Return (Some no_rows) /\
  extract_text_with_boxes broken_string (Some no_rows) fresh = (Return "", fresh) /\
  get_text_boxes broken_data no_int (Some no_rows) fresh = (Return [], fresh).
Proof.
  apply (empty_image_is_noop gray_of_bgr blur_flat adaptive_flat morph_flat floor_min
           broken_string broken_data no_int (Some no_rows) "Threshold" 127 fresh).
  right. exists no_rows. split; reflexivity.
Defined.

Lemma make_table_is_table (cands : list candidate) : table_of (make_table cands) cands.
Proof. unfold table_of, make_table. repeat split; reflexivity. Qed.

(** Four rows with confidences -1, 0, 5 and 90. *)
Definition four_rows : list candidate :=
  [MkCandidate 0 0 10 10 (-1) ""; MkCandidate 1 2 3 4 0 " ";
   MkCandidate 5 6 7 8 5 "ab"; MkCandidate 9 10 11 12 90 "cd"].

(** C6, on the four rows: the two with confidences 5 and 90 come back. *)
Lemma detect_keeps_positive_confidence_witness :
  get_text_boxes (fun _ => Return (make_table four_rows)) no_int (Some one_pixel) fresh =
  (Return [(5, 6, 7, 8, 5); (9, 10, 11, 12, 90)],
   MkWorld [] [Call_image_to_data one_pixel]).
Proof.
  apply (detect_keeps_positive_confidence (fun _ => Return (make_table four_rows))
           no_int one_pixel four_rows (make_table four_rows) fresh).
  - vm_compute. discriminate.
  - reflexivity.
  - apply make_table_is_table.
Defined.

(** C7, with an engine that is not installed. *)
Lemma engine_failure_is_caught_witness :
  extract_text_with_boxes broken_string (Some one_pixel) fresh =
    (Return ("Error: " +:+ exn_str tesseract_missing),
     after_failed_call (Call_image_to_string one_pixel)
       ("Error during OCR: " +:+ exn_str tesseract_missing) fresh) /\
  get_text_boxes broken_data no_int (Some one_pixel) fresh =
    (Return [],
     after_failed_call (Call_image_to_data one_pixel)
       ("Error getting text boxes: " +:+ exn_str tesseract_missing) fresh).
Proof.
  apply (engine_failure_is_caught broken_string broken_data no_int one_pixel
           tesseract_missing tesseract_missing fresh).
  - vm_compute. discriminate.
  - reflexivity.
  - reflexivity.
Defined.

(** C7 fails as stated: block detection returns the same value, the empty
    list and no exception, when the engine raises as when the engine
    answers with no row; only the console tells the two apart. *)
Lemma engine_failure_looks_like_no_text :
  fst (get_text_boxes broken_data no_int (Some one_pixel) fresh) = Return [] /\
  fst (get_text_boxes silent_data no_int (Some one_pixel) fresh) = Return [] /\
  console (snd (get_text_boxes broken_data no_int (Some one_pixel) fresh)) =
    ["Error getting text boxes: tesseract is not installed or it's not in your PATH"].
Proof. repeat split; reflexivity. Qed.

(** C2, on a region of width 0 in a two by two image. *)
Lemma roi_ocr_empty_crop_witness :
  extract_text_from_roi gray_of_bgr blur_flat adaptive_flat morph_flat floor_min broken_string
    (Some two_by_two) (0, 0, 0, 1) "Grayscale" 127 fresh = (Return "", fresh).
Proof.
  apply (roi_ocr_empty_crop gray_of_bgr blur_flat adaptive_flat morph_flat floor_min
           broken_string (Some two_by_two) 0 0 0 1 "Grayscale" 127
           (NdArray [1%nat; 0%nat] []) fresh); reflexivity.
Defined.

(** C2 fails as stated: for a region of width 0 the operation raises
    nothing and returns the empty string, which is also what it returns
    for a region of positive area in which the engine finds no text. *)
Lemma empty_crop_looks_like_no_text :
  crop (Some two_by_two) 0 0 0 1 = Return (NdArray [1%nat; 0%nat] []) /\
  fst (extract_text_from_roi gray_of_bgr blur_flat adaptive_flat morph_flat floor_min
         silent_string (Some two_by_two) (0, 0, 0, 1) "Grayscale" 127 fresh)
    = Return "" /\
  crop (Some two_by_two) 0 0 1 1 = Return (NdArray [1%nat; 1%nat] [9]) /\
  fst (extract_text_from_roi gray_of_bgr blur_flat adaptive_flat morph_flat floor_min
         silent_string (Some two_by_two) (0, 0, 1, 1) "Grayscale" 127 fresh)
    = Return "".
Proof. repeat split; reflexivity. Qed.

End ConcreteOcr.

(** * Facts about binary64 arithmetic *)

Module Float64Facts.

Import Float64.

(** A mantissa of [k] digits lies in [2^(k-1), 2^k). *)
Lemma digits_bounds (m : positive) :
  2 ^ (digits m - 1) <= Z.pos m < 2 ^ digits m.
Proof.
  unfold digits. induction m as [m IH | m IH |]; simpl digits2_pos.
  - rewrite Pos2Z.inj_succ. change (Z.pos m~1) with (2 * Z.pos m + 1).
    replace (Z.succ (Z.pos (digits2_pos m)) - 1) with (Z.succ (Z.pos (digits2_pos m) - 1)) by lia.
    rewrite !Z.pow_succ_r by lia. lia.
  - rewrite Pos2Z.inj_succ. change (Z.pos m~0) with (2 * Z.pos m).
    replace (Z.succ (Z.pos (digits2_pos m)) - 1) with (Z.succ (Z.pos (digits2_pos m) - 1)) by lia.
    rewrite !Z.pow_succ_r by lia. lia.
  - simpl. lia.
Qed.

Lemma digits_pos (m : positive) : 1 <= digits m.
Proof. unfold digits. lia. Qed.

(** And the number of digits is the only [k] with that property. *)
Lemma digits_unique (m : positive) (k : Z) :
  2 ^ (k - 1) <= Z.pos m < 2 ^ k -> digits m = k.
Proof.
  intros [Hl Hu]. pose proof (digits_bounds m) as [Bl Bu]. pose proof (digits_pos m).
  assert (0 < k).
  { destruct (Z.lt_trichotomy k 0) as [H0 | [H0 | H0]]; try lia.
    - rewrite Z.pow_neg_r in Hu by lia. lia.
    - subst. simpl in Hu. lia. }
  destruct (Z.lt_trichotomy (digits m) k) as [Hlt | [Heq | Hgt]]; [|exact Heq|].
  - assert (2 ^ digits m <= 2 ^ (k - 1)) by (apply Z.pow_le_mono_r; lia). lia.
  - assert (2 ^ k <= 2 ^ (digits m - 1)) by (apply Z.pow_le_mono_r; lia). lia.
Qed.

(** One step of the right shift halves the mantissa. *)
Lemma shr_1_m (mrs : shr_record) :
  0 <= shr_m mrs -> shr_m (shr_1 mrs) = shr_m mrs / 2.
Proof.
  destruct mrs as [m r s]. simpl. intros Hm.
  destruct m as [|[p|p|]|p]; cbn [shr_m]; try lia; try reflexivity.
  - apply Z.div_unique with 1; lia.
  - apply Z.div_unique with 0; lia.
Qed.

Lemma pow2_xI (p : positive) : 2 ^ Z.pos p~1 = 2 * 2 ^ Z.pos p * 2 ^ Z.pos p.
Proof.
  change (Z.pos p~1) with (2 * Z.pos p + 1).
  replace (2 * Z.pos p + 1) with (1 + Z.pos p + Z.pos p) by lia.
  rewrite !Z.pow_add_r by lia. reflexivity.
Qed.

Lemma pow2_xO (p : positive) : 2 ^ Z.pos p~0 = 2 ^ Z.pos p * 2 ^ Z.pos p.
Proof.
  change (Z.pos p~0) with (2 * Z.pos p).
  replace (2 * Z.pos p) with (Z.pos p + Z.pos p) by lia.
  rewrite !Z.pow_add_r by lia. reflexivity.
Qed.

(** [p] steps divide it by [2^p]. *)
Lemma iter_shr_1_m (p : positive) : forall mrs,
  0 <= shr_m mrs -> shr_m (SpecFloat.iter_pos shr_1 p mrs) = shr_m mrs / 2 ^ Z.pos p.
Proof.
  induction p as [p IH | p IH |]; intros mrs Hm; simpl SpecFloat.iter_pos.
  - assert (H1 : 0 <= shr_m (shr_1 mrs)) by (rewrite shr_1_m by lia; apply Z.div_pos; lia).
    assert (H2 : 0 <= shr_m (SpecFloat.iter_pos shr_1 p (shr_1 mrs)))
      by (rewrite IH by lia; apply Z.div_pos; lia).
    rewrite IH by exact H2. rewrite IH by exact H1. rewrite shr_1_m by lia.
    rewrite !Z.div_div by lia. rewrite pow2_xI. f_equal; ring.
  - assert (H2 : 0 <= shr_m (SpecFloat.iter_pos shr_1 p mrs))
      by (rewrite IH by lia; apply Z.div_pos; lia).
    rewrite IH by exact H2. rewrite IH by exact Hm.
    rewrite !Z.div_div by lia. rewrite pow2_xO. f_equal; ring.
  - rewrite shr_1_m by lia. reflexivity.
Qed.

(** The right shift by [n] places: mantissa and exponent; nothing happens
    for [n <= 0]. *)
Lemma shr_m_spec (mrs : shr_record) (e n : Z) :
  0 <= shr_m mrs ->
  shr_m (fst (shr mrs e n)) = shr_m mrs / 2 ^ Z.max 0 n /\
  snd (shr mrs e n) = e + Z.max 0 n.
Proof.
  intros Hm. destruct n as [|p|p]; cbn [shr fst snd].
  - change (Z.max 0 0) with 0. rewrite Z.div_1_r. lia.
  - replace (Z.max 0 (Z.pos p)) with (Z.pos p) by lia.
    rewrite iter_shr_1_m by exact Hm. split; reflexivity.
  - replace (Z.max 0 (Z.neg p)) with 0 by lia. rewrite Z.div_1_r. lia.
Qed.

Lemma shr_record_of_loc_m (m : Z) (l : location) : shr_m (shr_record_of_loc m l) = m.
Proof. destruct l as [|[| |]]; reflexivity. Qed.

(** The shift that brings a mantissa to the precision of the format. *)
Lemma shr_fexp_spec (m : positive) (e : Z) (l : location) :
  let n := fexp prec emax (digits m + e) - e in
  shr_m (fst (shr_fexp prec emax (Z.pos m) e l)) = Z.pos m / 2 ^ Z.max 0 n /\
  snd (shr_fexp prec emax (Z.pos m) e l) = e + Z.max 0 n.
Proof.
  intros n. unfold shr_fexp. change (Zdigits2 (Z.pos m)) with (digits m). fold n.
  pose proof (shr_m_spec (shr_record_of_loc (Z.pos m) l) e n) as H.
  rewrite shr_record_of_loc_m in H. apply H. lia.
Qed.

(** Above the subnormal range a number of magnitude [e] has its last bit
    at [e - 53]. *)
Lemma fexp_normal (e : Z) : -1074 <= e - 53 -> fexp prec emax e = e - 53.
Proof. unfold fexp, emin, prec, emax. lia. Qed.

(** Rounding keeps the truncated mantissa or adds one to it. *)
Lemma round_nearest_even_cases (m : Z) (l : location) :
  round_nearest_even m l = m \/ round_nearest_even m l = m + 1.
Proof. destruct l as [|[| |]]; simpl; auto. destruct (Z.even m); auto. Qed.

(** Dropping the [k] digits in excess of 53 leaves a 53-digit number. *)
Lemma div_pow2_digits (m : positive) (k : Z) :
  0 <= k -> digits m = k + 53 ->
  2 ^ 52 <= Z.pos m / 2 ^ k < 2 ^ 53.
Proof.
  intros Hk HD. pose proof (digits_bounds m) as [Hl Hu]. rewrite HD in Hl, Hu.
  replace (k + 53 - 1) with (52 + k) in Hl by lia.
  rewrite Z.pow_add_r in Hl, Hu by lia.
  assert (0 < 2 ^ k) by (apply Z.pow_pos_nonneg; lia).
  split.
  - apply Z.div_le_lower_bound; lia.
  - apply Z.div_lt_upper_bound; lia.
Qed.

(** Rounding a mantissa of at least 53 digits whose result is neither
    subnormal nor too large: the result is finite and normal, its mantissa
    is the truncated one or the next, renormalised when that is 2^53. *)
Lemma binary_round_aux_normal (sx : bool) (mx : positive) (ex : Z) (lx : location) :
  let k := digits mx - 53 in
  0 <= k -> -1074 <= ex + k -> ex + k + 1 <= 971 ->
  exists m e,
    binary_round_aux prec emax sx (Z.pos mx) ex lx = S754_finite sx m e /\
    2 ^ 52 <= Z.pos m < 2 ^ 53 /\
    ((e = ex + k /\
      (Z.pos m = Z.pos mx / 2 ^ k \/ Z.pos m = Z.pos mx / 2 ^ k + 1)) \/
     (e = ex + k + 1 /\ Z.pos m = 2 ^ 52 /\ Z.pos mx / 2 ^ k + 1 = 2 ^ 53)).
Proof.
  intros k Hk Hlo Hhi.
  pose proof (div_pow2_digits mx k Hk ltac:(unfold k; lia)) as Hm1.
  unfold binary_round_aux.
  pose proof (shr_fexp_spec mx ex lx) as [S1 S2]. cbv zeta in S1, S2.
  rewrite fexp_normal in S1, S2 by (unfold k in *; lia).
  replace (digits mx + ex - 53 - ex) with k in S1, S2 by (unfold k; lia).
  replace (Z.max 0 k) with k in S1, S2 by lia.
  destruct (shr_fexp prec emax (Z.pos mx) ex lx) as [mrs' e'].
  cbn [fst snd] in S1, S2. subst e'.
  set (m1 := Z.pos mx / 2 ^ k) in *.
  set (m2 := round_nearest_even (shr_m mrs') (loc_of_shr_record mrs')).
  assert (Hm2 : m2 = m1 \/ m2 = m1 + 1).
  { unfold m2.
    destruct (round_nearest_even_cases (shr_m mrs') (loc_of_shr_record mrs'))
      as [R | R]; rewrite R, S1; auto. }
  assert (Hm2pos : 0 < m2) by lia.
  destruct m2 as [|p2|p2] eqn:Ep2; try lia.
  assert (Hcase : Z.pos p2 < 2 ^ 53 \/ Z.pos p2 = 2 ^ 53) by lia.
  destruct Hcase as [Hlt | Heq].
  - assert (HD2 : digits p2 = 53) by (apply digits_unique; simpl Z.sub; lia).
    pose proof (shr_fexp_spec p2 (ex + k) loc_Exact) as [T1 T2]. cbv zeta in T1, T2.
    rewrite HD2, fexp_normal in T1, T2 by lia.
    replace (53 + (ex + k) - 53 - (ex + k)) with 0 in T1, T2 by lia.
    change (Z.max 0 0) with 0 in T1, T2. rewrite Z.div_1_r in T1. rewrite Z.add_0_r in T2.
    destruct (shr_fexp prec emax (Z.pos p2) (ex + k) loc_Exact) as [mrs'' e''].
    cbn [fst snd] in T1, T2. rewrite T1, T2.
    replace (ex + k <=? emax - prec) with true
      by (symmetry; apply Z.leb_le; unfold emax, prec; lia).
    exists p2, (ex + k). split; [reflexivity|]. split; [lia|]. left. split; [reflexivity|]. lia.
  - assert (HD2 : digits p2 = 54) by (apply digits_unique; simpl Z.sub; rewrite Heq; lia).
    pose proof (shr_fexp_spec p2 (ex + k) loc_Exact) as [T1 T2]. cbv zeta in T1, T2.
    rewrite HD2, fexp_normal in T1, T2 by lia.
    replace (54 + (ex + k) - 53 - (ex + k)) with 1 in T1, T2 by lia.
    change (Z.max 0 1) with 1 in T1, T2.
    destruct (shr_fexp prec emax (Z.pos p2) (ex + k) loc_Exact) as [mrs'' e''].
    cbn [fst snd] in T1, T2. rewrite T1, T2, Heq.
    change (2 ^ 53 / 2 ^ 1) with (Z.pos (2 ^ 52)).
    replace (ex + k + 1 <=? emax - prec) with true
      by (symmetry; apply Z.leb_le; unfold emax, prec; lia).
    exists (2 ^ 52)%positive, (ex + k + 1). split; [reflexivity|]. split; [lia|].
    right. split; [reflexivity|]. split; [reflexivity|]. lia.
Qed.

Lemma bpow2_add (a b : Z) : bpow2 (a + b) = (bpow2 a * bpow2 b)%R.
Proof. unfold bpow2. apply powerRZ_add. lra. Qed.

Lemma bpow2_gt0 (a : Z) : (0 < bpow2 a)%R.
Proof. unfold bpow2. apply powerRZ_lt. lra. Qed.

Lemma bpow2_IZR (k : Z) : 0 <= k -> bpow2 k = IZR (2 ^ k).
Proof.
  intros Hk. unfold bpow2. rewrite <- (Z2Nat.id k Hk).
  rewrite <- pow_powerRZ, <- pow_IZR. reflexivity.
Qed.

Lemma bpow2_succ (a : Z) : bpow2 (a + 1) = (2 * bpow2 a)%R.
Proof. rewrite bpow2_add. unfold bpow2 at 2. simpl. lra. Qed.

(** The same in real numbers: for any [x] that the mantissa, exponent and
    location stand for, the result is within one unit in the last place
    [A] of [x], and [x] is at least [2^52 * A]. *)
Lemma binary_round_aux_normal_R (sx : bool) (mx : positive) (ex : Z) (lx : location)
  (x : R) :
  let k := digits mx - 53 in
  0 <= k -> -1074 <= ex + k -> ex + k + 1 <= 971 ->
  (IZR (Z.pos mx) * bpow2 ex <= x < (IZR (Z.pos mx) + 1) * bpow2 ex)%R ->
  exists m e,
    binary_round_aux prec emax sx (Z.pos mx) ex lx = S754_finite sx m e /\
    2 ^ 52 <= Z.pos m < 2 ^ 53 /\
    ex + k <= e <= ex + k + 1 /\
    (- bpow2 (ex + k) <= IZR (Z.pos m) * bpow2 e - x <= bpow2 (ex + k))%R /\
    (IZR (2 ^ 52) * bpow2 (ex + k) <= x)%R.
Proof.
  intros k Hk Hlo Hhi Hx.
  destruct (binary_round_aux_normal sx mx ex lx Hk Hlo Hhi) as (m & e & Hr & Hm & Hc).
  fold k in Hc. exists m, e. split; [exact Hr|]. split; [exact Hm|].
  pose proof (div_pow2_digits mx k Hk ltac:(unfold k; lia)) as Hm1.
  set (m1 := Z.pos mx / 2 ^ k) in *.
  assert (Hp : 0 < 2 ^ k) by (apply Z.pow_pos_nonneg; lia).
  assert (Hd1 : 2 ^ k * m1 <= Z.pos mx) by (apply Z.mul_div_le; lia).
  assert (Hd2 : Z.pos mx + 1 <= 2 ^ k * (m1 + 1)).
  { pose proof (Z.mod_pos_bound (Z.pos mx) (2 ^ k) Hp).
    pose proof (Z.div_mod (Z.pos mx) (2 ^ k) ltac:(lia)). fold m1 in H0. lia. }
  apply IZR_le in Hd1, Hd2. rewrite mult_IZR in Hd1, Hd2. rewrite plus_IZR in Hd2.
  rewrite plus_IZR in Hd2. rewrite <- bpow2_IZR in Hd1, Hd2 by lia.
  set (A := bpow2 (ex + k)).
  assert (HA : A = (bpow2 ex * bpow2 k)%R) by apply bpow2_add.
  pose proof (bpow2_gt0 ex) as Hex. pose proof (bpow2_gt0 k) as Hbk.
  assert (HAp : (0 < A)%R) by apply bpow2_gt0.
  assert (Lo : (IZR m1 * A <= x)%R).
  { apply Rle_trans with (IZR (Z.pos mx) * bpow2 ex)%R; [|lra].
    rewrite HA. replace (IZR m1 * (bpow2 ex * bpow2 k))%R
      with ((bpow2 k * IZR m1) * bpow2 ex)%R by ring.
    apply Rmult_le_compat_r; lra. }
  assert (Hi : (x < (IZR m1 + 1) * A)%R).
  { apply Rlt_le_trans with ((IZR (Z.pos mx) + 1) * bpow2 ex)%R; [lra|].
    rewrite HA. replace ((IZR m1 + 1) * (bpow2 ex * bpow2 k))%R
      with ((bpow2 k * (IZR m1 + 1)) * bpow2 ex)%R by ring.
    apply Rmult_le_compat_r; lra. }
  assert (H52 : (IZR (2 ^ 52) <= IZR m1)%R) by (apply IZR_le; lia).
  assert (Hv : (IZR (Z.pos m) * bpow2 e = IZR m1 * A \/
                IZR (Z.pos m) * bpow2 e = (IZR m1 + 1) * A)%R).
  { destruct Hc as [(-> & [E | E]) | (-> & E1 & E2)].
    - left. rewrite E. reflexivity.
    - right. rewrite E, plus_IZR. reflexivity.
    - right. rewrite bpow2_succ. fold A. rewrite E1.
      apply (f_equal IZR) in E2. rewrite plus_IZR in E2. rewrite E2.
      change (2 ^ 53) with (2 * 2 ^ 52). rewrite mult_IZR. ring. }
  split; [destruct Hc as [(-> & _) | (-> & _)]; lia|].
  split.
  - destruct Hv as [-> | ->]; lra.
  - apply Rle_trans with (IZR m1 * A)%R; [|exact Lo].
    apply Rmult_le_compat_r; lra.
Qed.

(** Appending [d] zero bits multiplies by [2^d]. *)
Lemma iter_xO_pow2 (m d : positive) :
  Z.pos (Pos.iter xO m d) = Z.pos m * 2 ^ Z.pos d.
Proof.
  induction d as [|d IH] using Pos.peano_ind.
  - simpl. lia.
  - rewrite Pos.iter_succ. change (Z.pos (Pos.iter xO m d)~0) with (2 * Z.pos (Pos.iter xO m d)).
    rewrite IH, Pos2Z.inj_succ, Z.pow_succ_r by lia. ring.
Qed.

(** A 53-digit mantissa with an exact location is left as it is. *)
Lemma binary_round_aux_exact (sx : bool) (mx : positive) (ex : Z) :
  digits mx = 53 -> -1074 <= ex <= 971 ->
  binary_round_aux prec emax sx (Z.pos mx) ex loc_Exact = S754_finite sx mx ex.
Proof.
  intros HD He. unfold binary_round_aux, shr_fexp.
  change (Zdigits2 (Z.pos mx)) with (digits mx). rewrite HD.
  rewrite fexp_normal by lia. replace (53 + ex - 53 - ex) with 0 by lia.
  cbn [shr shr_record_of_loc shr_m loc_of_shr_record round_nearest_even].
  change (Zdigits2 (Z.pos mx)) with (digits mx). rewrite HD.
  rewrite fexp_normal by lia. replace (53 + ex - 53 - ex) with 0 by lia.
  cbn [shr shr_record_of_loc shr_m].
  replace (ex <=? emax - prec) with true
    by (symmetry; apply Z.leb_le; unfold emax, prec; lia).
  reflexivity.
Qed.

(** [float(z)] for a positive [z] below 2^53: the same number, normalised. *)
Lemma binary_round_small (sx : bool) (p : positive) :
  digits p <= 53 ->
  exists m,
    binary_round prec emax sx p 0 = S754_finite sx m (digits p - 53) /\
    digits m = 53 /\
    Z.pos m = Z.pos p * 2 ^ (53 - digits p).
Proof.
  intros HD. unfold binary_round, shl_align.
  change (Z.pos (digits2_pos p)) with (digits p).
  rewrite Z.add_0_r, fexp_normal by (pose proof (digits_pos p); lia).
  rewrite Z.sub_0_r.
  pose proof (digits_bounds p) as [Bl Bu]. pose proof (digits_pos p) as Hp.
  destruct (digits p - 53) as [|q|q] eqn:E; try lia.
  - exists p. assert (HD' : digits p = 53) by lia.
    rewrite binary_round_aux_exact by lia.
    replace (53 - digits p) with 0 by lia. split; [reflexivity|]. split; [exact HD'|]. lia.
  - exists (Pos.iter xO p q).
    assert (Hv : Z.pos (Pos.iter xO p q) = Z.pos p * 2 ^ (53 - digits p)).
    { rewrite iter_xO_pow2. f_equal. f_equal. lia. }
    assert (HD' : digits (Pos.iter xO p q) = 53).
    { assert (P1 : 2 ^ (53 - 1) = 2 ^ (digits p - 1) * 2 ^ (53 - digits p))
        by (rewrite <- Z.pow_add_r by lia; f_equal; lia).
      assert (P2 : 2 ^ 53 = 2 ^ digits p * 2 ^ (53 - digits p))
        by (rewrite <- Z.pow_add_r by lia; f_equal; lia).
      assert (0 < 2 ^ (53 - digits p)) by (apply Z.pow_pos_nonneg; lia).
      apply digits_unique. rewrite Hv, P1, P2.
      split; [apply Z.mul_le_mono_nonneg_r | apply Z.mul_lt_mono_pos_r]; lia. }
    rewrite binary_round_aux_exact by lia.
    split; [reflexivity|]. split; [exact HD' | exact Hv].
Qed.

(** [int(f)] of a finite float: the sign applied to the integer part of
    the magnitude. *)
Lemma to_int_finite (s : bool) (m : positive) (e : Z) :
  exists t, to_int (S754_finite s m e) = Return (if s then - t else t) /\
    (IZR t <= IZR (Z.pos m) * bpow2 e < IZR t + 1)%R.
Proof.
  unfold to_int. destruct e as [|k|k].
  - exists (Z.pos m * 2 ^ 0). split; [reflexivity|].
    rewrite mult_IZR. unfold bpow2. simpl. lra.
  - exists (Z.pos m * 2 ^ Z.pos k). split; [reflexivity|].
    rewrite mult_IZR, <- bpow2_IZR by lia. lra.
  - exists (Z.pos m / 2 ^ Z.pos k). split; [reflexivity|].
    assert (Hp : 0 < 2 ^ Z.pos k) by (apply Z.pow_pos_nonneg; lia).
    pose proof (Z.mul_div_le (Z.pos m) (2 ^ Z.pos k) Hp) as H1.
    pose proof (Z.mod_pos_bound (Z.pos m) (2 ^ Z.pos k) Hp) as H2.
    pose proof (Z.div_mod (Z.pos m) (2 ^ Z.pos k) ltac:(lia)) as H3.
    set (t := Z.pos m / 2 ^ Z.pos k) in *.
    assert (H4 : Z.pos m + 1 <= 2 ^ Z.pos k * (t + 1)) by lia.
    apply IZR_le in H1, H4. rewrite mult_IZR in H1, H4. rewrite !plus_IZR in H4.
    rewrite <- bpow2_IZR in H1, H4 by lia.
    pose proof (bpow2_gt0 (Z.pos k)) as Hb. pose proof (bpow2_gt0 (Z.neg k)) as Hn.
    assert (Hinv : (bpow2 (Z.pos k) * bpow2 (Z.neg k) = 1)%R).
    { rewrite <- bpow2_add. replace (Z.pos k + Z.neg k) with 0 by lia. reflexivity. }
    split.
    + replace (IZR t) with ((bpow2 (Z.pos k) * IZR t) * bpow2 (Z.neg k))%R
        by (rewrite Rmult_comm, <- Rmult_assoc, (Rmult_comm (bpow2 (Z.neg k))), Hinv; ring).
      apply Rmult_le_compat_r; lra.
    + replace (IZR t + 1)%R with ((bpow2 (Z.pos k) * (IZR t + 1)) * bpow2 (Z.neg k))%R
        by (rewrite Rmult_comm, <- Rmult_assoc, (Rmult_comm (bpow2 (Z.neg k))), Hinv; ring).
      apply Rmult_lt_compat_r; lra.
Qed.

(** The quotient of two positive integers below 2^53: a normal float
    within one unit in the last place [A] of [n / d], with
    [2^52 * A <= n / d]. *)
Lemma SFdiv_ints (n d : positive) :
  digits n <= 53 -> digits d <= 53 ->
  exists m e (A : R),
    SFdiv prec emax (Z2SF (Z.pos n)) (Z2SF (Z.pos d)) = S754_finite false m e /\
    2 ^ 52 <= Z.pos m < 2 ^ 53 /\
    digits n - digits d - 53 <= e <= digits n - digits d - 51 /\
    (- A <= IZR (Z.pos m) * bpow2 e - IZR (Z.pos n) / IZR (Z.pos d) <= A)%R /\
    (IZR (2 ^ 52) * A <= IZR (Z.pos n) / IZR (Z.pos d))%R.
Proof.
  intros Hn Hd. pose proof (digits_pos n) as Pn. pose proof (digits_pos d) as Pd.
  pose proof (digits_bounds n) as [Nl Nu]. pose proof (digits_bounds d) as [Dl Du].
  set (s := 53 + digits d - digits n).
  assert (Hs : 0 < s) by (unfold s; lia).
  unfold Z2SF, SFdiv, SFdiv_core_binary. cbn [xorb].
  change (Zdigits2 (Z.pos n)) with (digits n). change (Zdigits2 (Z.pos d)) with (digits d).
  rewrite !Z.add_0_r, fexp_normal by lia. change (0 - 0) with 0.
  replace (Z.min (digits n - digits d - 53) 0) with (- s) by (unfold s; lia).
  replace (0 - - s) with s by lia.
  destruct s as [|ps|ps] eqn:Es; try lia. rewrite <- Es in *. clear Es ps.
  rewrite Z.shiftl_mul_pow2 by lia.
  set (m' := Z.pos n * 2 ^ s).
  pose proof (Z.div_eucl_eq m' (Z.pos d) ltac:(lia)) as Hq.
  pose proof (Z.mod_pos_bound m' (Z.pos d) ltac:(lia)) as Hr.
  unfold Z.modulo in Hr.
  destruct (Z.div_eucl m' (Z.pos d)) as [q r].
  assert (Hps : 0 < 2 ^ s) by (apply Z.pow_pos_nonneg; lia).
  assert (P1 : 2 ^ (digits n - 1) * 2 ^ s = 2 ^ 52 * 2 ^ digits d)
    by (rewrite <- !Z.pow_add_r by lia; f_equal; unfold s; lia).
  assert (P2 : 2 ^ digits n * 2 ^ s = 2 ^ 54 * 2 ^ (digits d - 1))
    by (rewrite <- !Z.pow_add_r by lia; f_equal; unfold s; lia).
  assert (Hq52 : 2 ^ 52 <= q).
  { assert (2 ^ 52 * Z.pos d < (q + 1) * Z.pos d); [|nia].
    apply Z.le_lt_trans with (2 ^ 52 * 2 ^ digits d); [nia|]. unfold m' in Hq. nia. }
  assert (Hq54 : q < 2 ^ 54).
  { assert (q * Z.pos d < 2 ^ 54 * Z.pos d); [|nia].
    apply Z.le_lt_trans with m'; [lia|]. unfold m'.
    apply Z.lt_le_trans with (2 ^ digits n * 2 ^ s); [nia|]. rewrite P2. nia. }
  destruct q as [|pq|pq]; try lia.
  assert (Hk : digits pq = 53 \/ digits pq = 54).
  { destruct (Z_lt_le_dec (Z.pos pq) (2 ^ 53)).
    - left. apply digits_unique. simpl Z.sub. lia.
    - right. apply digits_unique. simpl Z.sub. lia. }
  set (x := (IZR (Z.pos n) / IZR (Z.pos d))%R).
  assert (Hx : (IZR (Z.pos pq) * bpow2 (- s) <= x < (IZR (Z.pos pq) + 1) * bpow2 (- s))%R).
  { assert (Hd0 : (0 < IZR (Z.pos d))%R) by (apply IZR_lt; lia).
    pose proof (bpow2_gt0 s) as Hbs. pose proof (bpow2_gt0 (- s)) as Hbn.
    assert (Hinv : (bpow2 s * bpow2 (- s) = 1)%R).
    { rewrite <- bpow2_add. replace (s + - s) with 0 by lia. reflexivity. }
    assert (Hn' : IZR (Z.pos n) = (x * IZR (Z.pos d))%R)
      by (unfold x; field; lra).
    assert (E1 : (IZR (Z.pos pq) * IZR (Z.pos d) <= IZR (Z.pos n) * bpow2 s)%R).
    { rewrite bpow2_IZR, <- !mult_IZR by lia. apply IZR_le. fold m'. lia. }
    assert (E2 : (IZR (Z.pos n) * bpow2 s < (IZR (Z.pos pq) + 1) * IZR (Z.pos d))%R).
    { rewrite bpow2_IZR by lia. rewrite <- (plus_IZR _ 1), <- !mult_IZR.
      apply IZR_lt. fold m'. lia. }
    rewrite Hn' in E1, E2.
    split.
    - apply Rmult_le_reg_r with (IZR (Z.pos d) * bpow2 s)%R; [nra|].
      replace (IZR (Z.pos pq) * bpow2 (- s) * (IZR (Z.pos d) * bpow2 s))%R
        with (IZR (Z.pos pq) * IZR (Z.pos d) * (bpow2 s * bpow2 (- s)))%R by ring.
      rewrite Hinv. lra.
    - apply Rmult_lt_reg_r with (IZR (Z.pos d) * bpow2 s)%R; [nra|].
      replace ((IZR (Z.pos pq) + 1) * bpow2 (- s) * (IZR (Z.pos d) * bpow2 s))%R
        with ((IZR (Z.pos pq) + 1) * IZR (Z.pos d) * (bpow2 s * bpow2 (- s)))%R by ring.
      rewrite Hinv. lra. }
  destruct (binary_round_aux_normal_R false pq (- s)
              (new_location (Z.pos d) r) x
              ltac:(lia) ltac:(unfold s; lia) ltac:(unfold s; lia) Hx)
    as (m & e & Hr' & Hm & He & Hab & Hlo).
  exists m, e, (bpow2 (- s + (digits pq - 53))).
  split; [exact Hr'|]. split; [exact Hm|]. split; [unfold s in He; lia|].
  split; [exact Hab | exact Hlo].
Qed.

(** The product of two normal floats away from overflow and underflow: a
    normal float within one unit in the last place [A] of the exact
    product, with [2^52 * A] at most the exact product. *)
Lemma SFmul_normal (s1 s2 : bool) (m1 m2 : positive) (e1 e2 : Z) :
  2 ^ 52 <= Z.pos m1 < 2 ^ 53 -> 2 ^ 52 <= Z.pos m2 < 2 ^ 53 ->
  -1074 <= e1 + e2 + 52 -> e1 + e2 + 54 <= 971 ->
  exists m e (A : R),
    SFmul prec emax (S754_finite s1 m1 e1) (S754_finite s2 m2 e2) =
      S754_finite (xorb s1 s2) m e /\
    2 ^ 52 <= Z.pos m < 2 ^ 53 /\
    (- A <= IZR (Z.pos m) * bpow2 e -
            (IZR (Z.pos m1) * bpow2 e1) * (IZR (Z.pos m2) * bpow2 e2) <= A)%R /\
    (IZR (2 ^ 52) * A <=
     (IZR (Z.pos m1) * bpow2 e1) * (IZR (Z.pos m2) * bpow2 e2))%R.
Proof.
  intros H1 H2 Hlo Hhi. unfold SFmul.
  assert (Hprod : 2 ^ 104 <= Z.pos (m1 * m2) < 2 ^ 106).
  { rewrite Pos2Z.inj_mul. change (2 ^ 104) with (2 ^ 52 * 2 ^ 52).
    change (2 ^ 106) with (2 ^ 53 * 2 ^ 53). nia. }
  assert (Hk : digits (m1 * m2) = 105 \/ digits (m1 * m2) = 106).
  { destruct (Z_lt_le_dec (Z.pos (m1 * m2)) (2 ^ 105)).
    - left. apply digits_unique. simpl Z.sub. lia.
    - right. apply digits_unique. simpl Z.sub. lia. }
  set (x := ((IZR (Z.pos m1) * bpow2 e1) * (IZR (Z.pos m2) * bpow2 e2))%R).
  assert (Ex : x = (IZR (Z.pos (m1 * m2)) * bpow2 (e1 + e2))%R).
  { unfold x. rewrite Pos2Z.inj_mul, mult_IZR, bpow2_add. ring. }
  pose proof (bpow2_gt0 (e1 + e2)) as Hb.
  destruct (binary_round_aux_normal_R (xorb s1 s2) (m1 * m2) (e1 + e2) loc_Exact x
              ltac:(lia) ltac:(lia) ltac:(lia) ltac:(rewrite Ex; lra))
    as (m & e & Hr & Hm & He & Hab & Hl).
  exists m, e, (bpow2 (e1 + e2 + (digits (m1 * m2) - 53))).
  split; [exact Hr|]. split; [exact Hm|]. split; [exact Hab | exact Hl].
Qed.

(** [float(z)] for a non-zero [z] of magnitude below 2^53. *)
Lemma of_int_small (z : Z) :
  z <> 0 -> Z.abs z < 2 ^ 53 ->
  exists m e,
    of_int z = Return (S754_finite (z <? 0) m e) /\
    2 ^ 52 <= Z.pos m < 2 ^ 53 /\ -52 <= e <= 0 /\
    (IZR (Z.pos m) * bpow2 e = IZR (Z.abs z))%R.
Proof.
  intros Hz Hb. unfold of_int, binary_normalize.
  assert (K : forall (s : bool) (p : positive), Z.pos p < 2 ^ 53 ->
            exists m e, binary_round prec emax s p 0 = S754_finite s m e /\
              2 ^ 52 <= Z.pos m < 2 ^ 53 /\ -52 <= e <= 0 /\
              (IZR (Z.pos m) * bpow2 e = IZR (Z.pos p))%R).
  { intros s p Hp. pose proof (digits_bounds p) as [Bl Bu]. pose proof (digits_pos p).
    assert (HD : digits p <= 53).
    { destruct (Z_le_gt_dec (digits p) 53); [assumption|].
      assert (2 ^ 53 <= 2 ^ (digits p - 1)) by (apply Z.pow_le_mono_r; lia). lia. }
    destruct (binary_round_small s p HD) as (m & Hr & Hd & Hv).
    exists m, (digits p - 53). split; [exact Hr|].
    pose proof (digits_bounds m) as Bm. rewrite Hd in Bm.
    split; [simpl Z.sub in Bm; lia|]. split; [lia|].
    rewrite Hv, mult_IZR, <- bpow2_IZR by lia.
    rewrite Rmult_assoc, <- bpow2_add.
    replace (53 - digits p + (digits p - 53)) with 0 by lia.
    unfold bpow2. simpl. ring. }
  destruct z as [|p|p]; [congruence| |].
  - destruct (K false p ltac:(lia)) as (m & e & Hr & Hm & He & Hv).
    exists m, e. rewrite Hr. simpl. auto.
  - destruct (K true p ltac:(lia)) as (m & e & Hr & Hm & He & Hv).
    exists m, e. rewrite Hr. simpl. auto.
Qed.

(** [int(c * q)] returns for a normal [q] and a [c] of magnitude below
    2^53. *)
Lemma scaled_returns (c : Z) (s : bool) (mq : positive) (eq : Z) :
  Z.abs c < 2 ^ 53 -> 2 ^ 52 <= Z.pos mq < 2 ^ 53 -> -1000 <= eq <= 900 ->
  exists t, scaled c (S754_finite s mq eq) = Return t.
Proof.
  intros Hc Hm He. unfold scaled, int_mul_float.
  destruct (Z.eq_dec c 0) as [-> | Hz].
  - exists 0. reflexivity.
  - destruct (of_int_small c Hz Hc) as (m & e & -> & Hm1 & He1 & _).
    cbn [rbind].
    destruct (SFmul_normal (c <? 0) s m mq e eq Hm1 Hm ltac:(lia) ltac:(lia))
      as (m' & e' & A & -> & _).
    destruct (to_int_finite (xorb (c <? 0) s) m' e') as (t & -> & _).
    eexists. reflexivity.
Qed.

(** [int(d * (n / d))] is [n] or [n - 1] for [n] below 2^31. *)
Lemma scaled_back (n d : positive) :
  Z.pos n < 2 ^ 31 -> Z.pos d < 2 ^ 53 ->
  exists q t,
    int_truediv (Z.pos n) (Z.pos d) = Return q /\
    scaled (Z.pos d) q = Return t /\
    Z.pos n - 1 <= t <= Z.pos n.
Proof.
  intros Hn Hd.
  assert (HDn : digits n <= 53).
  { pose proof (digits_bounds n) as [Bl _].
    destruct (Z_le_gt_dec (digits n) 53); [assumption|].
    assert (2 ^ 53 <= 2 ^ (digits n - 1)) by (apply Z.pow_le_mono_r; lia). lia. }
  assert (HDd : digits d <= 53).
  { pose proof (digits_bounds d) as [Bl _].
    destruct (Z_le_gt_dec (digits d) 53); [assumption|].
    assert (2 ^ 53 <= 2 ^ (digits d - 1)) by (apply Z.pow_le_mono_r; lia). lia. }
  pose proof (digits_pos n). pose proof (digits_pos d).
  destruct (SFdiv_ints n d HDn HDd) as (mq & eq & A1 & Hq & Hmq & Heq & Hab1 & Hlo1).
  exists (S754_finite false mq eq).
  unfold int_truediv. change (Z.pos d =? 0) with false. cbv iota. rewrite Hq.
  unfold scaled, int_mul_float.
  destruct (of_int_small (Z.pos d) ltac:(lia) ltac:(lia)) as (md & ed & -> & Hmd & Hed & Hvd).
  cbn [rbind]. change (Z.pos d <? 0) with false.
  destruct (SFmul_normal false false md mq ed eq Hmd Hmq ltac:(lia) ltac:(lia))
    as (mp & ep & A2 & -> & Hmp & Hab2 & Hlo2).
  destruct (to_int_finite (xorb false false) mp ep) as (t & -> & Ht).
  cbn [xorb]. exists t. split; [reflexivity|]. split; [reflexivity|].
  rewrite Hvd in Hab2, Hlo2. change (Z.abs (Z.pos d)) with (Z.pos d) in Hab2, Hlo2.
  set (vp := (IZR (Z.pos mp) * bpow2 ep)%R) in *.
  set (vq := (IZR (Z.pos mq) * bpow2 eq)%R) in *.
  set (rn := IZR (Z.pos n)) in *. set (rd := IZR (Z.pos d)) in *.
  assert (Hrd : (0 < rd)%R) by (apply IZR_lt; lia).
  assert (Hrn : (1 <= rn < 2147483648)%R).
  { split; [apply IZR_le; lia | apply IZR_lt; exact Hn]. }
  change (IZR (2 ^ 52)) with 4503599627370496%R in *.
  assert (Hx : (rd * (rn / rd) = rn)%R) by (field; lra).
  assert (B1 : (- (rd * A1) <= rd * vq - rn <= rd * A1)%R).
  { rewrite <- Hx at 1 2. split; nra. }
  assert (B2 : (4503599627370496 * (rd * A1) <= rn)%R).
  { rewrite <- Hx. nra. }
  set (y := (rd * vq)%R) in *. set (B := (rd * A1)%R) in *.
  assert (Hlow : (rn - 1 < vp)%R) by lra.
  assert (Hupp : (vp < rn + 1)%R) by lra.
  split.
  - assert (IZR (Z.pos n - 2) < IZR t)%R; [|apply lt_IZR in H1; lia].
    rewrite minus_IZR. fold rn. lra.
  - assert (IZR t < IZR (Z.pos n + 1))%R; [|apply lt_IZR in H1; lia].
    rewrite plus_IZR. fold rn. lra.
Qed.

End Float64Facts.

(** * Properties of the coordinate mapping *)

Section CanvasFacts.

Import Float64 Float64Facts.

Lemma digits_le_53 (p : positive) : Z.pos p < 2 ^ 53 -> digits p <= 53.
Proof.
  intros Hp. pose proof (digits_bounds p) as [Bl _].
  destruct (Z_le_gt_dec (digits p) 53); [assumption|].
  assert (2 ^ 53 <= 2 ^ (digits p - 1)) by (apply Z.pow_le_mono_r; lia). lia.
Qed.

(** The quotient of two positive sizes is a normal float. *)
Lemma int_truediv_returns (n d : Z) :
  0 < n < 2 ^ 53 -> 0 < d < 2 ^ 53 ->
  exists m e,
    int_truediv n d = Return (S754_finite false m e) /\
    2 ^ 52 <= Z.pos m < 2 ^ 53 /\ -106 <= e <= 2.
Proof.
  intros Hn Hd. destruct n as [|n|n]; try lia. destruct d as [|d|d]; try lia.
  pose proof (digits_le_53 n ltac:(lia)). pose proof (digits_le_53 d ltac:(lia)).
  pose proof (digits_pos n). pose proof (digits_pos d).
  destruct (SFdiv_ints n d) as (m & e & A & Hq & Hm & He & _); try assumption.
  exists m, e. unfold int_truediv. change (Z.pos d =? 0) with false. cbv iota.
  rewrite Hq. split; [reflexivity|]. split; [exact Hm | lia].
Qed.

Lemma int32_abs (c : Z) : int32 c -> Z.abs c < 2 ^ 53.
Proof. unfold int32. lia. Qed.

(** The four products exist for sizes and coordinates in the range of a C
    [int]. *)
Lemma scale_roi_returns (r : QRect) (sw sh dw dh : Z) :
  0 < sw < 2 ^ 31 -> 0 < sh < 2 ^ 31 -> 0 < dw < 2 ^ 31 -> 0 < dh < 2 ^ 31 ->
  int32 (rect_x r) -> int32 (rect_y r) -> int32 (rect_width r) -> int32 (rect_height r) ->
  exists sx sy x y w h,
    int_truediv sw dw = Return sx /\ int_truediv sh dh = Return sy /\
    scaled (rect_x r) sx = Return x /\ scaled (rect_y r) sy = Return y /\
    scaled (rect_width r) sx = Return w /\ scaled (rect_height r) sy = Return h /\
    scale_roi r sw sh dw dh = Return (x, y, w, h).
Proof.
  intros Hsw Hsh Hdw Hdh Hx Hy Hw Hh.
  destruct (int_truediv_returns sw dw ltac:(lia) ltac:(lia)) as (mx & ex & Dx & Mx & Ex).
  destruct (int_truediv_returns sh dh ltac:(lia) ltac:(lia)) as (my & ey & Dy & My & Ey).
  destruct (scaled_returns (rect_x r) false mx ex (int32_abs _ Hx) Mx ltac:(lia)) as [x Sx].
  destruct (scaled_returns (rect_y r) false my ey (int32_abs _ Hy) My ltac:(lia)) as [y Sy].
  destruct (scaled_returns (rect_width r) false mx ex (int32_abs _ Hw) Mx ltac:(lia))
    as [w Sw].
  destruct (scaled_returns (rect_height r) false my ey (int32_abs _ Hh) My ltac:(lia))
    as [h Sh].
  exists (S754_finite false mx ex), (S754_finite false my ey), x, y, w, h.
  unfold scale_roi. rewrite Dx, Dy. cbn [rbind]. rewrite Sx, Sy, Sw, Sh. cbn [rbind].
  repeat split; reflexivity.
Qed.

(** What the four clamping assignments guarantee. *)
Lemma clamp_roi_bounds (img_w img_h x y w h : Z) :
  0 < img_w -> 0 < img_h ->
  exists x' y' w' h',
    clamp_roi img_w img_h x y w h = (x', y', w', h') /\
    0 <= x' <= img_w - 1 /\ 0 <= y' <= img_h - 1 /\
    1 <= w' <= img_w - x' /\ 1 <= h' <= img_h - y'.
Proof.
  intros Hw Hh. unfold clamp_roi. do 4 eexists. split; [reflexivity|]. lia.
Qed.

(** C3: for a rectangle, a display size and an image size in the range of
    a C [int], the sizes positive, the mapping returns a rectangle with
    x in [0, width-1], y in [0, height-1], w in [1, width-x] and h in
    [1, height-y] of the image. *)
Theorem roi_lies_inside_image (r : QRect) (pm : QPixmap) (img : ndarray)
  (h w : nat) (rest : list nat) :
  shape img = h :: w :: rest ->
  0 < Z.of_nat w < 2 ^ 31 -> 0 < Z.of_nat h < 2 ^ 31 ->
  0 < pixmap_width pm < 2 ^ 31 -> 0 < pixmap_height pm < 2 ^ 31 ->
  int32 (rect_x r) -> int32 (rect_y r) -> int32 (rect_width r) -> int32 (rect_height r) ->
  exists x' y' w' h',
    get_roi_in_image_coords (MkImageCanvas (Some img) (Some pm) (Some r)) =
      Return (Some (x', y', w', h')) /\
    0 <= x' <= Z.of_nat w - 1 /\ 0 <= y' <= Z.of_nat h - 1 /\
    1 <= w' <= Z.of_nat w - x' /\ 1 <= h' <= Z.of_nat h - y'.
Proof.
  intros Hs Hw Hh Hdw Hdh Hx Hy Hrw Hrh.
  destruct (scale_roi_returns r (Z.of_nat w) (Z.of_nat h) (pixmap_width pm)
              (pixmap_height pm) Hw Hh Hdw Hdh Hx Hy Hrw Hrh)
    as (sx & sy & x & y & w0 & h0 & _ & _ & _ & _ & _ & _ & Hr).
  destruct (clamp_roi_bounds (Z.of_nat w) (Z.of_nat h) x y w0 h0 ltac:(lia) ltac:(lia))
    as (x' & y' & w' & h' & Hc & Hb).
  exists x', y', w', h'. split; [|exact Hb].
  unfold get_roi_in_image_coords. cbn [roi_rect image display_pixmap].
  rewrite Hs, Hr. cbn [rbind]. rewrite Hc. reflexivity.
Qed.

Lemma to_int_quot (f : float) (t : Z) :
  to_int f = Return t -> t = numerator f ÷ denominator f.
Proof.
  destruct f as [s | s | | s m e]; simpl; try discriminate.
  - intros [= <-]. reflexivity.
  - intros [= <-]. destruct e as [|k|k].
    + change (Z.max 0 0) with 0. change (Z.max 0 (- 0)) with 0.
      rewrite Z.quot_1_r. destruct s; lia.
    + replace (Z.max 0 (Z.pos k)) with (Z.pos k) by lia.
      replace (Z.max 0 (- Z.pos k)) with 0 by lia.
      rewrite Z.quot_1_r. destruct s; lia.
    + replace (Z.max 0 (Z.neg k)) with 0 by lia.
      replace (Z.max 0 (- Z.neg k)) with (Z.pos k) by lia.
      assert (Hp : 0 < 2 ^ Z.pos k) by (apply Z.pow_pos_nonneg; lia).
      rewrite Z.mul_1_r. destruct s.
      * replace (-1 * Z.pos m) with (- Z.pos m) by lia.
        rewrite Z.quot_opp_l by lia. rewrite Z.quot_div_nonneg by lia. reflexivity.
      * rewrite Z.mul_1_l. rewrite Z.quot_div_nonneg by lia. reflexivity.
Qed.

Lemma scaled_truncates (c : Z) (s : float) (t : Z) :
  scaled c s = Return t ->
  exists p, int_mul_float c s = Return p /\ t = numerator p ÷ denominator p.
Proof.
  unfold scaled. destruct (int_mul_float c s) as [p | e]; [|discriminate].
  cbn [rbind]. intros H. exists p. split; [reflexivity|]. now apply to_int_quot.
Qed.

(** C4 (as the code has it): before clamping, each coordinate is the
    product of the display coordinate with the float quotient of the image
    size by the display size, cut to its integer part, towards zero. *)
Theorem scale_roi_truncates (r : QRect) (sw sh dw dh : Z) :
  0 < sw < 2 ^ 31 -> 0 < sh < 2 ^ 31 -> 0 < dw < 2 ^ 31 -> 0 < dh < 2 ^ 31 ->
  int32 (rect_x r) -> int32 (rect_y r) -> int32 (rect_width r) -> int32 (rect_height r) ->
  exists sx sy px py pw ph,
    int_truediv sw dw = Return sx /\ int_truediv sh dh = Return sy /\
    int_mul_float (rect_x r) sx = Return px /\
    int_mul_float (rect_y r) sy = Return py /\
    int_mul_float (rect_width r) sx = Return pw /\
    int_mul_float (rect_height r) sy = Return ph /\
    scale_roi r sw sh dw dh =
      Return (numerator px ÷ denominator px, numerator py ÷ denominator py,
              numerator pw ÷ denominator pw, numerator ph ÷ denominator ph).
Proof.
  intros Hsw Hsh Hdw Hdh Hx Hy Hw Hh.
  destruct (scale_roi_returns r sw sh dw dh Hsw Hsh Hdw Hdh Hx Hy Hw Hh)
    as (sx & sy & x & y & w & h & Dx & Dy & Sx & Sy & Sw & Sh & Hr).
  destruct (scaled_truncates _ _ _ Sx) as (px & Px & ->).
  destruct (scaled_truncates _ _ _ Sy) as (py & Py & ->).
  destruct (scaled_truncates _ _ _ Sw) as (pw & Pw & ->).
  destruct (scaled_truncates _ _ _ Sh) as (ph & Ph & ->).
  exists sx, sy, px, py, pw, ph. repeat split; assumption.
Qed.

Lemma scaled_zero (s : bool) (m : positive) (e : Z) :
  scaled 0 (S754_finite s m e) = Return 0.
Proof. reflexivity. Qed.

(** The width of the whole display maps back to the width of the image or
    to one less. *)
Lemma scaled_back_Z (n d : Z) :
  0 < n < 2 ^ 31 -> 0 < d < 2 ^ 31 ->
  exists s m e t,
    int_truediv n d = Return (S754_finite s m e) /\
    scaled d (S754_finite s m e) = Return t /\ n - 1 <= t <= n.
Proof.
  intros Hn Hd. destruct n as [|n|n]; try lia. destruct d as [|d|d]; try lia.
  destruct (int_truediv_returns (Z.pos n) (Z.pos d) ltac:(lia) ltac:(lia))
    as (m & e & Dq & _).
  destruct (scaled_back n d ltac:(lia) ltac:(lia)) as (q & t & Dq' & St & Ht).
  rewrite Dq in Dq'. injection Dq' as <-.
  exists false, m, e, t. auto.
Qed.

(** C5: the rectangle of the whole display maps to a rectangle at (0, 0)
    whose width and height are those of the image or one less. *)
Theorem full_display_maps_to_full_image (pm : QPixmap) (img : ndarray)
  (h w : nat) (rest : list nat) :
  shape img = h :: w :: rest ->
  0 < Z.of_nat w < 2 ^ 31 -> 0 < Z.of_nat h < 2 ^ 31 ->
  0 < pixmap_width pm < 2 ^ 31 -> 0 < pixmap_height pm < 2 ^ 31 ->
  exists w' h',
    get_roi_in_image_coords
      (MkImageCanvas (Some img) (Some pm)
         (Some (MkQRect 0 0 (pixmap_width pm) (pixmap_height pm)))) =
      Return (Some (0, 0, w', h')) /\
    Z.of_nat w - 1 <= w' <= Z.of_nat w /\ Z.of_nat h - 1 <= h' <= Z.of_nat h.
Proof.
  intros Hs Hw Hh Hdw Hdh.
  destruct (scaled_back_Z (Z.of_nat w) (pixmap_width pm) Hw Hdw)
    as (s1 & m1 & e1 & tw & Dx & Sw & Bw).
  destruct (scaled_back_Z (Z.of_nat h) (pixmap_height pm) Hh Hdh)
    as (s2 & m2 & e2 & th & Dy & Sh & Bh).
  unfold get_roi_in_image_coords. cbn [roi_rect image display_pixmap].
  rewrite Hs. unfold scale_roi. cbn [rect_x rect_y rect_width rect_height].
  rewrite Dx, Dy. cbn [rbind]. rewrite !scaled_zero, Sw, Sh. cbn [rbind].
  unfold clamp_roi.
  replace (Z.max 0 (Z.min 0 (Z.of_nat w - 1))) with 0 by lia.
  replace (Z.max 0 (Z.min 0 (Z.of_nat h - 1))) with 0 by lia.
  do 2 eexists. split; [reflexivity|]. lia.
Qed.

End CanvasFacts.

Section ConcreteCanvas.

Import Doubles.

Lemma int32_small (z : Z) : - 100 <= z <= 100 -> int32 z.
Proof. unfold int32. lia. Qed.

(** C3, for a rectangle that starts left of the display and reaches
    beyond it, on a two by two image shown four by four. *)
Lemma roi_lies_inside_image_witness :
  exists x' y' w' h',
    get_roi_in_image_coords
      (MkImageCanvas (Some two_by_two) (Some (MkQPixmap 4 4))
         (Some (MkQRect (-3) 1 10 2))) = Return (Some (x', y', w', h')) /\
    0 <= x' <= Z.of_nat 2 - 1 /\ 0 <= y' <= Z.of_nat 2 - 1 /\
    1 <= w' <= Z.of_nat 2 - x' /\ 1 <= h' <= Z.of_nat 2 - y'.
Proof.
  apply (roi_lies_inside_image (MkQRect (-3) 1 10 2) (MkQPixmap 4 4) two_by_two
           2%nat 2%nat []); try reflexivity; try (simpl; lia);
    apply int32_small; simpl; lia.
Defined.

(** The same call, evaluated. *)
Example roi_beyond_display_value :
  get_roi_in_image_coords
    (MkImageCanvas (Some two_by_two) (Some (MkQPixmap 4 4))
       (Some (MkQRect (-3) 1 10 2))) = Return (Some (0, 0, 2, 1)).
Proof. vm_compute. reflexivity. Qed.

(** C4 fails as stated: for the display coordinate 3, a display 4 wide and
    an image 1 wide, the product is 0.75; the code yields 0, rounding to
    the nearest integer yields 1. *)
Lemma scaling_is_not_rounding :
  scale_roi (MkQRect 3 3 3 3) 1 1 4 4 = Return (0, 0, 0, 0) /\
  spec_round_scaled 3 1 4 = 1.
Proof. split; vm_compute; reflexivity. Qed.

(** C4, at the same input. *)
Lemma scale_roi_truncates_witness :
  exists sx sy px py pw ph,
    Float64.int_truediv 1 4 = Return sx /\ Float64.int_truediv 1 4 = Return sy /\
    Float64.int_mul_float 3 sx = Return px /\
    Float64.int_mul_float 3 sy = Return py /\
    Float64.int_mul_float 3 sx = Return pw /\
    Float64.int_mul_float 3 sy = Return ph /\
    scale_roi (MkQRect 3 3 3 3) 1 1 4 4 =
      Return (Float64.numerator px ÷ Float64.denominator px,
              Float64.numerator py ÷ Float64.denominator py,
              Float64.numerator pw ÷ Float64.denominator pw,
              Float64.numerator ph ÷ Float64.denominator ph).
Proof.
  apply (scale_roi_truncates (MkQRect 3 3 3 3) 1 1 4 4); try (simpl; lia);
    apply int32_small; simpl; lia.
Defined.

(** C5, for a two by two image shown 49 by 49. *)
Lemma full_display_maps_to_full_image_witness :
  exists w' h',
    get_roi_in_image_coords
      (MkImageCanvas (Some two_by_two) (Some (MkQPixmap 49 49))
         (Some (MkQRect 0 0 49 49))) = Return (Some (0, 0, w', h')) /\
    Z.of_nat 2 - 1 <= w' <= Z.of_nat 2 /\ Z.of_nat 2 - 1 <= h' <= Z.of_nat 2.
Proof.
  apply (full_display_maps_to_full_image (MkQPixmap 49 49) two_by_two 2%nat 2%nat []);
    try reflexivity; simpl; lia.
Defined.

(** The same call, evaluated: 2 / 49 rounds down as a float, 49 times it
    stays below 2, and one pixel of width and of height is lost. *)
Example full_display_can_lose_a_pixel :
  get_roi_in_image_coords
    (MkImageCanvas (Some two_by_two) (Some (MkQPixmap 49 49))
       (Some (MkQRect 0 0 49 49))) = Return (Some (0, 0, 1, 1)).
Proof. vm_compute. reflexivity. Qed.

End ConcreteCanvas.

(** * Further properties of ocr_utils.py *)

(** The confidence of a tuple [(x, y, w, h, conf)]. *)
Definition box_conf (b : box) : Z := snd b.

(** A string has no white space at either end: its bytes start with no
    white-space character, and end with none. *)
Definition no_outer_space (s : string) : Prop :=
  space_len (list_ascii_of_string s) = 0%nat /\
  space_len_rev (rev (list_ascii_of_string s)) = 0%nat.

(** main.py, [ocr_full_image], lines 366-367: preprocess the whole image,
    then extract the text. *)
Definition full_image_text
  (cvtColor : ndarray -> result ndarray)
  (medianBlur : ndarray -> Z -> result ndarray)
  (adaptiveThreshold :
     ndarray -> Z -> adaptive_method -> threshold_type -> Z -> Z -> result ndarray)
  (morphologyEx : ndarray -> morph_op -> ndarray -> Z -> result ndarray)
  (cvFloor : Z -> Z)
  (image_to_string : ndarray -> result string)
  (current_image : option ndarray) (preprocess_mode : string) (threshold : Z)
  : M string :=
  processed <- lift (preprocess_image cvtColor medianBlur adaptiveThreshold
                       morphologyEx cvFloor current_image preprocess_mode
                       threshold) ;;
  extract_text_with_boxes image_to_string processed.

(** The buffer of an array has as many elements as its shape says. *)
Definition well_formed (a : ndarray) : Prop := length (data a) = size a.

Section MoreRecognitionFacts.

Variable cvtColor : ndarray -> result ndarray.
Variable medianBlur : ndarray -> Z -> result ndarray.
Variable adaptiveThreshold :
  ndarray -> Z -> adaptive_method -> threshold_type -> Z -> Z -> result ndarray.
Variable morphologyEx : ndarray -> morph_op -> ndarray -> Z -> result ndarray.
Variable cvFloor : Z -> Z.
Variable image_to_string : ndarray -> result string.
Variable image_to_data : ndarray -> result (gmap string (list pyval)).
Variable int_of_str : string -> option Z.

Local Abbreviation preprocess :=
  (preprocess_image cvtColor medianBlur adaptiveThreshold morphologyEx cvFloor).
Local Abbreviation recognize := (extract_text_with_boxes image_to_string).
Local Abbreviation detect := (get_text_boxes image_to_data int_of_str).
Local Abbreviation roi_ocr :=
  (extract_text_from_roi cvtColor medianBlur adaptiveThreshold morphologyEx cvFloor
     image_to_string).
Local Abbreviation full_ocr :=
  (full_image_text cvtColor medianBlur adaptiveThreshold morphologyEx cvFloor image_to_string).

(** Whatever the table holds, the loop only ever adds tuples of positive
    confidence. *)
Lemma boxes_loop_positive (d : gmap string (list pyval)) (idxs : list nat) :
  forall acc res,
    Forall (fun b => 0 < box_conf b) acc ->
    boxes_loop int_of_str d idxs acc = Return res ->
    Forall (fun b => 0 < box_conf b) res.
Proof.
  induction idxs as [|i idxs IH]; intros acc res Hacc; simpl.
  - intros [= <-]. exact Hacc.
  - destruct (int_at int_of_str d "conf" i) as [c|e]; simpl; [|discriminate].
    destruct (0 <? c) eqn:Ec; [|apply IH; exact Hacc].
    destruct (int_at int_of_str d "left" i) as [x|e]; simpl; [|discriminate].
    destruct (int_at int_of_str d "top" i) as [y|e]; simpl; [|discriminate].
    destruct (int_at int_of_str d "width" i) as [w|e]; simpl; [|discriminate].
    destruct (int_at int_of_str d "height" i) as [h|e]; simpl; [|discriminate].
    apply IH. apply Forall_app. split; [exact Hacc|].
    constructor; [|constructor]. unfold box_conf. simpl. now apply Z.ltb_lt.
Qed.

(** X1: whatever the engine does, on whatever image, block detection returns
    normally, and every tuple it returns has a strictly positive
    confidence. *)
Theorem detect_returns_positive_boxes (image : option ndarray) (w : world) :
  exists boxes w',
    detect image w = (Return boxes, w') /\
    Forall (fun b => 0 < box_conf b) boxes.
Proof.
  unfold get_text_boxes. destruct image as [img|]; [|exists [], w; auto].
  destruct (size img =? 0)%nat; [exists [], w; auto|].
  unfold try_except, call_image_to_data, bind, record_call, lift, fromarray, ret, print.
  destruct (image_to_data img) as [d|e]; [|eauto].
  destruct (subscript_key d "text") as [texts|e]; simpl; [|eauto].
  destruct (boxes_loop int_of_str d (seq 0 (length texts)) []) as [res|e] eqn:El; [|eauto].
  do 2 eexists. split; [reflexivity|].
  eapply boxes_loop_positive; [|exact El]. constructor.
Qed.

(** The engine calls a world has seen beyond those of an earlier world. *)
Definition calls_since (w w' : world) (cs : list engine_call) : Prop :=
  engine_calls w' = engine_calls w ++ cs.

(** X2: whatever the engine does, neither operation raises; each makes at
    most one call of the engine, and none at all on an absent or empty
    image.  (Whether a call is made on a non-empty image is not stated: the
    conversion to a PIL image comes first and may itself fail inside the
    same [try].) *)
Theorem adapter_never_raises (image : option ndarray) (w : world) :
  (exists s w' cs, recognize image w = (Return s, w') /\
     calls_since w w' cs /\ (length cs <= 1)%nat /\
     (absent_or_empty image -> cs = [])) /\
  (exists bs w' cs, detect image w = (Return bs, w') /\
     calls_since w w' cs /\ (length cs <= 1)%nat /\
     (absent_or_empty image -> cs = [])).
Proof.
  unfold extract_text_with_boxes, get_text_boxes, calls_since.
  assert (Nil : forall l : list engine_call, l = l ++ [] /\ (length (@nil engine_call) <= 1)%nat /\
            (absent_or_empty image -> @nil engine_call = [])).
  { intros l. rewrite app_nil_r. repeat split. simpl. lia. }
  destruct image as [img|]; [|split; do 3 eexists; (split; [reflexivity|]); apply Nil].
  destruct (size img =? 0)%nat eqn:Es;
    [split; do 3 eexists; (split; [reflexivity|]); apply Nil|].
  assert (One : forall (l : list engine_call) c, l ++ [c] = l ++ [c] /\
            (length [c] <= 1)%nat /\ (absent_or_empty (Some img) -> [c] = [])).
  { intros l c. repeat split; [simpl; lia|].
    intros [H | (i & [= <-] & H)]; [discriminate|].
    apply Nat.eqb_neq in Es. contradiction. }
  unfold try_except, call_image_to_string, call_image_to_data, bind, record_call,
    lift, fromarray, ret, print.
  split.
  - destruct (image_to_string img) as [t|e]; do 3 eexists; (split; [reflexivity|]);
      apply One.
  - destruct (image_to_data img) as [d|e];
      [|do 3 eexists; (split; [reflexivity|]); apply One].
    destruct (subscript_key d "text") as [texts|e]; simpl;
      [|do 3 eexists; (split; [reflexivity|]); apply One].
    destruct (boxes_loop int_of_str d (seq 0 (length texts)) []) as [res|e];
      do 3 eexists; (split; [reflexivity|]); apply One.
Qed.

(** A loop that runs past the end of the column of confidences raises. *)
Lemma boxes_loop_short_column (d : gmap string (list pyval)) (confs : list pyval)
  (n : nat) :
  d !! "conf" = Some confs ->
  forall a acc, (a <= length confs < a + n)%nat ->
    exists e, boxes_loop int_of_str d (seq a n) acc = Raise e.
Proof.
  intros Hc. induction n as [|n IH]; intros a acc Ha; [lia|].
  simpl. unfold int_at at 1. unfold subscript_key. rewrite Hc. simpl.
  unfold subscript_index. destruct (confs !! a) as [v|] eqn:Ev; simpl; [|eauto].
  apply lookup_lt_Some in Ev.
  destruct (py_int int_of_str v) as [c|e]; simpl; [|eauto].
  destruct (0 <? c); [|apply IH; lia].
  destruct (int_at int_of_str d "left" a) as [x|e]; simpl; [|eauto].
  destruct (int_at int_of_str d "top" a) as [y|e]; simpl; [|eauto].
  destruct (int_at int_of_str d "width" a) as [w|e]; simpl; [|eauto].
  destruct (int_at int_of_str d "height" a) as [h|e]; simpl; [|eauto].
  destruct (int_at int_of_str d "conf" a) as [c'|e]; simpl; [|eauto].
  apply IH. lia.
Qed.

(** X3: when the engine's table has fewer confidences than texts, block
    detection returns no tuple at all, also none of the rows that were
    complete, and prints one line. *)
Theorem detect_drops_all_on_short_column (img : ndarray)
  (d : gmap string (list pyval)) (texts confs : list pyval) (w : world) :
  size img <> 0%nat ->
  image_to_data img = Return d ->
  d !! "text" = Some texts -> d !! "conf" = Some confs ->
  (length confs < length texts)%nat ->
  exists line,
    detect (Some img) w =
      (Return [], after_failed_call (Call_image_to_data img) line w).
Proof.
  intros Hs He Ht Hc Hlen. unfold get_text_boxes. rewrite (size_nonzero_eqb _ Hs).
  unfold try_except, call_image_to_data, bind, record_call, lift, fromarray, ret, print.
  rewrite He. unfold subscript_key. rewrite Ht. simpl.
  destruct (boxes_loop_short_column d confs (length texts) Hc 0%nat []) as [e Hl]; [lia|].
  rewrite Hl. eexists. reflexivity.
Qed.

End MoreRecognitionFacts.

Section TextAndCropFacts.

Variable cvtColor : ndarray -> result ndarray.
Variable medianBlur : ndarray -> Z -> result ndarray.
Variable adaptiveThreshold :
  ndarray -> Z -> adaptive_method -> threshold_type -> Z -> Z -> result ndarray.
Variable morphologyEx : ndarray -> morph_op -> ndarray -> Z -> result ndarray.
Variable cvFloor : Z -> Z.
Variable image_to_string : ndarray -> result string.

Local Abbreviation preprocess :=
  (preprocess_image cvtColor medianBlur adaptiveThreshold morphologyEx cvFloor).
Local Abbreviation recognize := (extract_text_with_boxes image_to_string).
Local Abbreviation roi_ocr :=
  (extract_text_from_roi cvtColor medianBlur adaptiveThreshold morphologyEx cvFloor
     image_to_string).
Local Abbreviation full_ocr :=
  (full_image_text cvtColor medianBlur adaptiveThreshold morphologyEx cvFloor image_to_string).

(** A white-space character is no longer than the bytes there are. *)
Lemma space_len_le (l : list ascii) : (space_len l <= length l)%nat.
Proof.
  destruct l as [|a [|b [|c l]]]; simpl; repeat case_match; simpl; lia.
Qed.

Lemma space_len_rev_le (l : list ascii) : (space_len_rev l <= length l)%nat.
Proof.
  destruct l as [|a [|b [|c l]]]; simpl; repeat case_match; simpl; lia.
Qed.

(** With enough fuel the stripping stops where no white space is left. *)
Lemma strip_left_stops (len : list ascii -> nat) :
  (forall l, (len l <= length l)%nat) ->
  forall fuel l, (length l <= fuel)%nat -> len (strip_left len fuel l) = 0%nat.
Proof.
  intros Hlen. induction fuel as [|fuel IH]; intros l Hl; simpl.
  - specialize (Hlen l). lia.
  - destruct (len l) as [|k] eqn:E; [exact E|].
    apply IH. rewrite length_drop. specialize (Hlen l). lia.
Qed.

(** What is left is the end of what was there. *)
Lemma strip_left_suffix (len : list ascii -> nat) (fuel : nat) (l : list ascii) :
  exists p, l = p ++ strip_left len fuel l.
Proof.
  revert l. induction fuel as [|fuel IH]; intros l; simpl; [now exists []|].
  destruct (len l) as [|k]; [now exists []|].
  destruct (IH (drop (S k) l)) as [p Hp]. exists (take (S k) l ++ p).
  rewrite <- app_assoc, <- Hp. symmetry. apply take_drop.
Qed.

(** A string that starts with white space still does when it goes on. *)
Lemma space_len_app (p q : list ascii) :
  space_len (p ++ q) = 0%nat -> space_len p = 0%nat.
Proof.
  destruct p as [|a [|b [|c p]]]; simpl; try reflexivity;
    repeat case_match; try reflexivity; try discriminate.
Qed.

Lemma strip_no_outer_space (s : string) : no_outer_space (strip s).
Proof.
  unfold no_outer_space, strip. rewrite list_ascii_of_string_of_list_ascii.
  set (inner := lstrip_chars (list_ascii_of_string s)).
  assert (Hi : space_len inner = 0%nat).
  { apply (strip_left_stops space_len space_len_le). lia. }
  unfold rstrip_chars. split.
  - destruct (strip_left_suffix space_len_rev (length inner) (rev inner)) as [p Hp].
    apply (space_len_app _ (rev p)).
    rewrite <- rev_app_distr, <- Hp, rev_involutive. exact Hi.
  - rewrite rev_involutive.
    apply (strip_left_stops space_len_rev space_len_rev_le). rewrite length_rev. lia.
Qed.

(** Stripping removes bytes at the two ends only. *)
Lemma strip_keeps_middle (s : string) :
  exists p q, list_ascii_of_string s = p ++ list_ascii_of_string (strip s) ++ q.
Proof.
  unfold strip. rewrite list_ascii_of_string_of_list_ascii.
  unfold rstrip_chars, lstrip_chars.
  set (l := list_ascii_of_string s).
  destruct (strip_left_suffix space_len (length l) l) as [p Hp].
  set (inner := strip_left space_len (length l) l) in *.
  destruct (strip_left_suffix space_len_rev (length inner) (rev inner)) as [q Hq].
  exists p, (rev q). rewrite <- rev_app_distr, <- Hq, rev_involutive. exact Hp.
Qed.

(** X4: when the engine answers with a text, text extraction on a non-empty
    image returns that text stripped, prints nothing, and has called the
    engine once; the stripped text is a part of the engine's text that
    neither starts nor ends with a white-space character, of one byte or
    of several. *)
Theorem recognize_returns_stripped_text (img : ndarray) (text : string) (w : world) :
  size img <> 0%nat ->
  image_to_string img = Return text ->
  recognize (Some img) w =
    (Return (strip text), after_call (Call_image_to_string img) w) /\
  no_outer_space (strip text) /\
  exists p q, list_ascii_of_string text = p ++ list_ascii_of_string (strip text) ++ q.
Proof.
  intros Hs He. split; [|split; [apply strip_no_outer_space | apply strip_keeps_middle]].
  unfold extract_text_with_boxes. rewrite (size_nonzero_eqb _ Hs).
  unfold try_except, call_image_to_string, bind, record_call, lift, fromarray, ret.
  rewrite He. destruct text; reflexivity.
Qed.

(** Cutting a list into pieces and gluing them gives back its first
    elements. *)
Lemma concat_chunks {A} (k n : nat) (l : list A) :
  concat (chunks k n l) = take (n * k) l.
Proof.
  revert l. induction n as [|n IH]; intros l; simpl; [reflexivity|].
  rewrite IH. apply take_take_drop.
Qed.

Lemma length_chunks {A} (k n : nat) (l : list A) : length (chunks k n l) = n.
Proof. revert l. induction n as [|n IH]; intros l; simpl; [reflexivity|]. now rewrite IH. Qed.

Lemma chunks_pieces_short {A} (k n : nat) (l : list A) :
  Forall (fun c => (length c <= k)%nat) (chunks k n l).
Proof.
  revert l. induction n as [|n IH]; intros l; simpl; constructor; [|apply IH].
  rewrite length_take. lia.
Qed.

(** A slice from 0 to the length is the whole list. *)
Lemma slice_whole {A} (l : list A) : slice l 0 (0 + Z.of_nat (length l)) = l.
Proof.
  unfold slice, slice_range, adjust_index. rewrite Z.add_0_l.
  change (0 <? 0) with false. cbv iota.
  destruct (Z.of_nat (length l) <=? 0) eqn:E0.
  - apply Z.leb_le in E0. assert (length l = 0%nat) as E by lia.
    destruct l; [reflexivity | discriminate E].
  - replace (Z.of_nat (length l) <? 0) with false by (symmetry; apply Z.ltb_ge; lia).
    rewrite Z.leb_refl. simpl Z.to_nat. rewrite Nat.sub_0_r, drop_0. apply take_ge. lia.
Qed.

(** Taking all rows and all columns of a well-formed image gives the image
    back. *)
Lemma crop_whole (img : ndarray) (h w : nat) (rest : list nat) :
  shape img = h :: w :: rest -> well_formed img ->
  crop (Some img) 0 0 (Z.of_nat w) (Z.of_nat h) = Return img.
Proof.
  intros Hs Hwf. unfold crop, getitem2. rewrite Hs.
  set (px := foldr Nat.mul 1%nat rest).
  assert (Hsize : length (data img) = (h * (w * px))%nat).
  { unfold well_formed, size in Hwf. rewrite Hs in Hwf. exact Hwf. }
  set (rows := chunks (w * px) h (data img)).
  assert (Hrows : length rows = h) by apply length_chunks.
  assert (R1 : slice_range 0 (0 + Z.of_nat h) h = (0%nat, h)).
  { unfold slice_range, adjust_index. rewrite Z.add_0_l. change (0 <? 0) with false.
    cbv iota. replace (Z.of_nat h <? 0) with false by (symmetry; apply Z.ltb_ge; lia).
    rewrite Z.leb_refl. destruct (Z.of_nat h <=? 0) eqn:E0.
    - apply Z.leb_le in E0. replace h with 0%nat by lia. reflexivity.
    - simpl Z.to_nat. now rewrite Nat.sub_0_r. }
  assert (R2 : slice_range 0 (0 + Z.of_nat w) w = (0%nat, w)).
  { unfold slice_range, adjust_index. rewrite Z.add_0_l. change (0 <? 0) with false.
    cbv iota. replace (Z.of_nat w <? 0) with false by (symmetry; apply Z.ltb_ge; lia).
    rewrite Z.leb_refl. destruct (Z.of_nat w <=? 0) eqn:E0.
    - apply Z.leb_le in E0. replace w with 0%nat by lia. reflexivity.
    - simpl Z.to_nat. now rewrite Nat.sub_0_r. }
  pose proof (slice_whole rows) as Hsl. rewrite Hrows in Hsl.
  rewrite R1, R2, Hsl.
  assert (Hcut : forall row : list Z, (length row <= w * px)%nat ->
            concat (slice (chunks px w row) 0 (0 + Z.of_nat w)) = row).
  { intros row Hl. pose proof (slice_whole (chunks px w row)) as Hc.
    rewrite length_chunks in Hc. rewrite Hc, concat_chunks. apply take_ge. lia. }
  assert (Hmap : forall rs : list (list Z),
            Forall (fun c => (length c <= w * px)%nat) rs ->
            (fun row : list Z =>
               concat (slice (chunks px w row) 0 (0 + Z.of_nat w))) <$> rs = rs).
  { intros rs Hf. induction Hf as [|row rs' Hrow _ IH]; [reflexivity|].
    rewrite fmap_cons, IH, Hcut by exact Hrow. reflexivity. }
  rewrite Hmap by apply chunks_pieces_short. unfold rows. rewrite concat_chunks, take_ge by lia.
  destruct img as [sh dt]. simpl in *. now subst sh.
Qed.

(** X5: text extraction from the region that is the whole of a well-formed
    image is text extraction from the image: the same text, the same
    engine call, the same printed lines. *)
Theorem roi_ocr_on_whole_image (img : ndarray) (h w : nat) (rest : list nat)
  (mode : string) (threshold : Z) (wd : world) :
  shape img = h :: w :: rest -> well_formed img ->
  roi_ocr (Some img) (0, 0, Z.of_nat w, Z.of_nat h) mode threshold wd =
  full_ocr (Some img) mode threshold wd.
Proof.
  intros Hs Hwf. unfold extract_text_from_roi, full_image_text, bind, lift.
  rewrite (crop_whole img h w rest Hs Hwf).
  destruct (size img =? 0)%nat eqn:E; [|reflexivity].
  unfold preprocess_image. rewrite E. unfold extract_text_with_boxes. rewrite E. reflexivity.
Qed.

(** X6: in mode Threshold a higher threshold never turns a pixel on.  For a
    non-empty image on which the conversion to gray and the median filter
    return, and two thresholds in the range of a C [int] (those of the
    spin box, 0 to 255, are), both calls return, and pixel by pixel the
    result for the higher threshold is at most the result for the lower
    one. *)
Theorem threshold_mode_is_antitone (img den : ndarray) (t1 t2 : Z) :
  size img <> 0%nat -> denoised_of cvtColor medianBlur img = Return den ->
  - 2 ^ 31 <= t1 -> t1 <= t2 -> t2 < 2 ^ 31 ->
  exists out1 out2,
    preprocess (Some img) "Threshold" t1 = Return (Some out1) /\
    preprocess (Some img) "Threshold" t2 = Return (Some out2) /\
    shape out1 = shape out2 /\
    Forall2 (fun p2 p1 => p2 <= p1) (data out2) (data out1).
Proof.
  intros Hs Hd H1 Ht H2.
  rewrite !(preprocess_after_denoise _ _ adaptiveThreshold morphologyEx cvFloor img den)
    by assumption.
  rewrite !threshold_in_range by lia. simpl.
  do 2 eexists. split; [reflexivity|]. split; [reflexivity|]. split; [reflexivity|].
  simpl. apply Forall2_fmap, Forall_Forall2_diag, Forall_true.
  intros p. simpl. destruct (t1 <? p) eqn:E1, (t2 <? p) eqn:E2; lia.
Qed.

End TextAndCropFacts.

(** * Further properties of the coordinate mapping *)

Section MappedRegionFacts.

Import Float64 Float64Facts.

(** A slice that lies inside the sequence starts where it says and has
    the length it says. *)
Lemma slice_range_inside (x w : Z) (n : nat) :
  0 <= x -> 1 <= w -> x + w <= Z.of_nat n ->
  slice_range x (x + w) n = (Z.to_nat x, Z.to_nat w).
Proof.
  intros Hx Hw Hn. unfold slice_range, adjust_index.
  replace (x <? 0) with false by (symmetry; apply Z.ltb_ge; lia).
  replace (Z.of_nat n <=? x) with false by (symmetry; apply Z.leb_gt; lia).
  replace (x + w <? 0) with false by (symmetry; apply Z.ltb_ge; lia).
  f_equal. destruct (Z.of_nat n <=? x + w) eqn:E.
  - apply Z.leb_le in E. lia.
  - lia.
Qed.

(** X7: for an image of positive height and width (and, for a colour
    image, a positive number of channels), each below 2^31, and a display
    of positive size, the region the mapping returns cuts a non-empty piece
    out of the image it was computed for, of exactly the height and width
    the mapping returned; for such an image the check for an empty crop
    that follows the mapping in [ocr_roi] does not fire.  (An image of no
    rows is not one of these: see [mapped_roi_on_image_of_no_rows].) *)
Theorem mapped_roi_crop_is_nonempty (r : QRect) (pm : QPixmap) (img : ndarray)
  (h w : nat) (rest : list nat) :
  shape img = h :: w :: rest -> foldr Nat.mul 1%nat rest <> 0%nat ->
  0 < Z.of_nat w < 2 ^ 31 -> 0 < Z.of_nat h < 2 ^ 31 ->
  0 < pixmap_width pm < 2 ^ 31 -> 0 < pixmap_height pm < 2 ^ 31 ->
  int32 (rect_x r) -> int32 (rect_y r) -> int32 (rect_width r) -> int32 (rect_height r) ->
  exists x' y' w' h' roi,
    get_roi_in_image_coords (MkImageCanvas (Some img) (Some pm) (Some r)) =
      Return (Some (x', y', w', h')) /\
    crop (Some img) x' y' w' h' = Return roi /\
    shape roi = Z.to_nat h' :: Z.to_nat w' :: rest /\
    size roi <> 0%nat.
Proof.
  intros Hs Hpx Hw Hh Hdw Hdh Hx Hy Hrw Hrh.
  destruct (scale_roi_returns r (Z.of_nat w) (Z.of_nat h) (pixmap_width pm)
              (pixmap_height pm) Hw Hh Hdw Hdh Hx Hy Hrw Hrh)
    as (sx & sy & x & y & w0 & h0 & _ & _ & _ & _ & _ & _ & Hr).
  destruct (clamp_roi_bounds (Z.of_nat w) (Z.of_nat h) x y w0 h0 ltac:(lia) ltac:(lia))
    as (x' & y' & w' & h' & Hc & Bx & By & Bw & Bh).
  exists x', y', w', h'.
  eexists. split.
  { unfold get_roi_in_image_coords. cbn [roi_rect image display_pixmap].
    rewrite Hs, Hr. cbn [rbind]. rewrite Hc. reflexivity. }
  unfold crop, getitem2. rewrite Hs.
  rewrite (slice_range_inside y' h' h) by lia.
  rewrite (slice_range_inside x' w' w) by lia.
  split; [reflexivity|]. split; [reflexivity|].
  unfold size. cbn [shape foldr]. intros E.
  apply Nat.eq_mul_0 in E as [E | E]; [lia|].
  apply Nat.eq_mul_0 in E as [E | E]; [lia | contradiction].
Qed.

End MappedRegionFacts.

(** * Exact cases of binary64 arithmetic *)

Module Float64Exact.

Import Float64 Float64Facts.

(** Shifting out zero bits leaves no remainder. *)
Lemma shr_1_even (m : Z) :
  0 <= m ->
  shr_1 (Build_shr_record (m * 2) false false) = Build_shr_record m false false.
Proof.
  intros Hm. destruct m as [|p|p]; try lia; [reflexivity|].
  replace (Z.pos p * 2) with (Z.pos p~0) by lia. reflexivity.
Qed.

Lemma iter_shr_1_even (p : positive) : forall m,
  0 <= m ->
  SpecFloat.iter_pos shr_1 p (Build_shr_record (m * 2 ^ Z.pos p) false false) =
  Build_shr_record m false false.
Proof.
  induction p as [p IH | p IH |]; intros m Hm; cbn [SpecFloat.iter_pos].
  - rewrite pow2_xI.
    replace (m * (2 * 2 ^ Z.pos p * 2 ^ Z.pos p))
      with (m * 2 ^ Z.pos p * 2 ^ Z.pos p * 2) by ring.
    assert (0 <= 2 ^ Z.pos p) by (apply Z.pow_nonneg; lia).
    rewrite shr_1_even by nia. rewrite IH by nia. apply IH. exact Hm.
  - rewrite pow2_xO. rewrite Z.mul_assoc.
    assert (0 <= 2 ^ Z.pos p) by (apply Z.pow_nonneg; lia).
    rewrite IH by nia. apply IH. exact Hm.
  - change (2 ^ 1) with 2. apply shr_1_even. exact Hm.
Qed.

(** Rounding a 53-digit mantissa followed by [k] zero bits is exact. *)
Lemma binary_round_aux_shifted (sx : bool) (m : positive) (k e : Z) :
  digits m = 53 -> 0 <= k -> -1074 <= e + k <= 971 ->
  binary_round_aux prec emax sx (Z.pos m * 2 ^ k) e loc_Exact =
  S754_finite sx m (e + k).
Proof.
  intros HD Hk He.
  destruct (Z.eq_dec k 0) as [-> | Hk0].
  - rewrite Z.mul_1_r, Z.add_0_r. apply binary_round_aux_exact; [exact HD | lia].
  - assert (Hp : 0 < 2 ^ k) by (apply Z.pow_pos_nonneg; lia).
    destruct (Z.pos m * 2 ^ k) as [|q|q] eqn:Eq; try lia.
    assert (HDq : digits q = 53 + k).
    { apply digits_unique. rewrite <- Eq.
      pose proof (digits_bounds m) as [Bl Bu]. rewrite HD in Bl, Bu.
      replace (53 + k - 1) with (52 + k) by lia. rewrite !Z.pow_add_r by lia.
      simpl Z.sub in Bl. nia. }
    unfold binary_round_aux, shr_fexp.
    change (Zdigits2 (Z.pos q)) with (digits q). rewrite HDq.
    rewrite fexp_normal by lia. replace (53 + k + e - 53 - e) with k by lia.
    destruct k as [|pk|pk]; try lia.
    cbn [shr shr_record_of_loc]. rewrite <- Eq.
    rewrite iter_shr_1_even by lia.
    cbn [shr_m loc_of_shr_record round_nearest_even].
    change (Zdigits2 (Z.pos m)) with (digits m). rewrite HD.
    rewrite fexp_normal by lia.
    replace (53 + (e + Z.pos pk) - 53 - (e + Z.pos pk)) with 0 by lia.
    cbn [shr shr_record_of_loc shr_m].
    replace (e + Z.pos pk <=? emax - prec) with true
      by (symmetry; apply Z.leb_le; unfold emax, prec; lia).
    reflexivity.
Qed.

Lemma digits_le (p : positive) (k : Z) : Z.pos p < 2 ^ k -> digits p <= k.
Proof.
  intros Hp. pose proof (digits_bounds p) as [Bl _].
  destruct (Z_le_gt_dec (digits p) k); [assumption|].
  assert (2 ^ k <= 2 ^ (digits p - 1)).
  { destruct (Z_lt_le_dec k 0).
    - rewrite (Z.pow_neg_r 2 k) by lia. apply Z.pow_nonneg. lia.
    - apply Z.pow_le_mono_r; lia. }
  lia.
Qed.

Lemma digits_ge (p : positive) (k : Z) : 2 ^ (k - 1) <= Z.pos p -> k <= digits p.
Proof.
  intros Hp. pose proof (digits_bounds p) as [_ Bu]. pose proof (digits_pos p).
  destruct (Z_le_gt_dec k (digits p)); [assumption|].
  assert (2 ^ digits p <= 2 ^ (k - 1)) by (apply Z.pow_le_mono_r; lia). lia.
Qed.

(** [float(z)] for a non-zero [z] of magnitude below 2^53, in full. *)
Lemma of_int_normal (z : Z) :
  z <> 0 -> Z.abs z < 2 ^ 53 ->
  exists m,
    of_int z = Return (S754_finite (z <? 0) m (digits (Z.to_pos (Z.abs z)) - 53)) /\
    digits m = 53 /\
    Z.pos m = Z.abs z * 2 ^ (53 - digits (Z.to_pos (Z.abs z))).
Proof.
  intros Hz Hb. unfold of_int, binary_normalize.
  destruct z as [|p|p]; [congruence| |]; simpl Z.abs in *; simpl Z.to_pos.
  - destruct (binary_round_small false p (digits_le p 53 Hb)) as (m & -> & Hd & Hv).
    exists m. auto.
  - destruct (binary_round_small true p (digits_le p 53 Hb)) as (m & -> & Hd & Hv).
    exists m. auto.
Qed.

(** [int(float(z))] is [z] for a [z] of magnitude below 2^53. *)
Lemma to_int_of_int (z : Z) (f : float) :
  Z.abs z < 2 ^ 53 -> of_int z = Return f -> to_int f = Return z.
Proof.
  intros Hb Hf. destruct (Z.eq_dec z 0) as [-> | Hz].
  - injection Hf as <-. reflexivity.
  - destruct (of_int_normal z Hz Hb) as (m & Ho & Hd & Hv). rewrite Ho in Hf.
    injection Hf as <-. unfold to_int.
    set (p := Z.to_pos (Z.abs z)) in *.
    assert (Hp : digits p <= 53) by (apply digits_le; unfold p; rewrite Z2Pos.id; lia).
    pose proof (digits_pos p).
    assert (Ha : match digits p - 53 with
                 | Z.neg k => Z.pos m / 2 ^ Z.pos k
                 | _ => Z.pos m * 2 ^ (digits p - 53)
                 end = Z.abs z).
    { destruct (digits p - 53) as [|k|k] eqn:E; try lia.
      - rewrite Hv. replace (53 - digits p) with 0 by lia. simpl. lia.
      - rewrite Hv. replace (53 - digits p) with (Z.pos k) by lia.
        apply Z.div_mul. apply Z.pow_nonzero; lia. }
    rewrite Ha. f_equal. destruct (z <? 0) eqn:Es; lia.
Qed.

(** The quotient of a multiple by its divisor is exact. *)
Lemma int_truediv_exact (j d : positive) :
  Z.pos j * Z.pos d < 2 ^ 53 ->
  int_truediv (Z.pos j * Z.pos d) (Z.pos d) = of_int (Z.pos j).
Proof.
  intros Hb.
  assert (Hj : Z.pos j < 2 ^ 53) by nia.
  assert (Hd : Z.pos d < 2 ^ 53) by nia.
  destruct (of_int_normal (Z.pos j) ltac:(lia) ltac:(simpl; lia)) as (m & -> & HDm & Hv).
  simpl Z.abs in Hv. simpl Z.to_pos in *. change (Z.pos j <? 0) with false.
  unfold int_truediv. change (Z.pos d =? 0) with false. cbv iota.
  change (Z.pos j * Z.pos d) with (Z.pos (j * d)) in *.
  set (n := (j * d)%positive) in *.
  pose proof (digits_pos n) as Pn. pose proof (digits_pos d) as Pd.
  pose proof (digits_pos j) as Pj.
  pose proof (digits_bounds j) as [Jl Ju]. pose proof (digits_bounds d) as [Dl Du].
  assert (Hn53 : digits n <= 53) by (apply digits_le; exact Hb).
  assert (Hj53 : digits j <= 53) by (apply digits_le; exact Hj).
  assert (Hd53 : digits d <= 53) by (apply digits_le; exact Hd).
  assert (Hnle : digits n <= digits j + digits d).
  { apply digits_le. unfold n. rewrite Pos2Z.inj_mul, Z.pow_add_r by lia. nia. }
  set (s := 53 + digits d - digits n).
  assert (Hs : 0 < s) by (unfold s; lia).
  unfold Z2SF, SFdiv, SFdiv_core_binary. cbn [xorb].
  change (Zdigits2 (Z.pos n)) with (digits n). change (Zdigits2 (Z.pos d)) with (digits d).
  rewrite !Z.add_0_r, fexp_normal by lia. change (0 - 0) with 0.
  replace (Z.min (digits n - digits d - 53) 0) with (- s) by (unfold s; lia).
  replace (0 - - s) with s by lia.
  destruct s as [|ps|ps] eqn:Es; try lia. rewrite <- Es in *. clear Es ps.
  rewrite Z.shiftl_mul_pow2 by lia.
  assert (Hps : 0 < 2 ^ s) by (apply Z.pow_pos_nonneg; lia).
  assert (Em : Z.pos n * 2 ^ s = Z.pos j * 2 ^ s * Z.pos d)
    by (unfold n; rewrite Pos2Z.inj_mul; ring).
  assert (Hde : Z.div_eucl (Z.pos n * 2 ^ s) (Z.pos d) = (Z.pos j * 2 ^ s, 0)).
  { assert (E : Z.div_eucl (Z.pos n * 2 ^ s) (Z.pos d) =
                ((Z.pos n * 2 ^ s) / Z.pos d, (Z.pos n * 2 ^ s) mod Z.pos d)).
    { unfold Z.div, Z.modulo. destruct (Z.div_eucl _ _). reflexivity. }
    rewrite E, Em, Z.div_mul, Z.mod_mul by lia. reflexivity. }
  rewrite Hde.
  assert (Hloc : new_location (Z.pos d) 0 = loc_Exact).
  { unfold new_location, new_location_even, new_location_odd.
    destruct (Z.even (Z.pos d)); reflexivity. }
  rewrite Hloc.
  set (k := digits d + digits j - digits n).
  assert (Hk : 0 <= k) by (unfold k; lia).
  assert (Eq : Z.pos j * 2 ^ s = Z.pos m * 2 ^ k).
  { rewrite Hv. rewrite <- Z.mul_assoc, <- Z.pow_add_r by lia.
    f_equal. f_equal. unfold s, k. lia. }
  rewrite Eq, binary_round_aux_shifted by (unfold s, k in *; lia).
  replace (- s + k) with (digits j - 53) by (unfold s, k; lia). reflexivity.
Qed.

(** The product of an integer with the float of an integer is exact as
    long as the product stays below 2^53. *)
Lemma int_mul_float_exact (c : Z) (j : positive) (fj : float) :
  Z.pos j < 2 ^ 53 -> Z.abs c * Z.pos j < 2 ^ 53 ->
  of_int (Z.pos j) = Return fj ->
  int_mul_float c fj = of_int (c * Z.pos j).
Proof.
  intros Hj Hb Hfj.
  destruct (of_int_normal (Z.pos j) ltac:(lia) ltac:(simpl; lia)) as (mj & Hoj & HDj & Hvj).
  rewrite Hoj in Hfj. injection Hfj as <-.
  simpl Z.abs in Hvj. simpl Z.to_pos in *. change (Z.pos j <? 0) with false.
  unfold int_mul_float.
  destruct (Z.eq_dec c 0) as [-> | Hc]; [reflexivity|].
  assert (Hcb : Z.abs c < 2 ^ 53) by nia.
  destruct (of_int_normal c Hc Hcb) as (mc & -> & HDc & Hvc). cbn [rbind].
  assert (Hz : c * Z.pos j <> 0) by nia.
  assert (Habs : Z.abs (c * Z.pos j) = Z.abs c * Z.pos j) by (rewrite Z.abs_mul; lia).
  destruct (of_int_normal (c * Z.pos j) Hz ltac:(lia)) as (mp & -> & HDp & Hvp).
  rewrite Habs in *.
  set (pc := Z.to_pos (Z.abs c)) in *.
  set (pp := Z.to_pos (Z.abs c * Z.pos j)) in *.
  assert (Epc : Z.pos pc = Z.abs c) by (unfold pc; rewrite Z2Pos.id; lia).
  assert (Epp : Z.pos pp = Z.abs c * Z.pos j) by (unfold pp; rewrite Z2Pos.id; lia).
  pose proof (digits_pos pc) as Pc. pose proof (digits_pos j) as Pj.
  pose proof (digits_pos pp) as Pp.
  pose proof (digits_bounds pc) as [Cl Cu]. pose proof (digits_bounds j) as [Jl Ju].
  assert (Hc53 : digits pc <= 53) by (apply digits_le; lia).
  assert (Hj53 : digits j <= 53) by (apply digits_le; lia).
  assert (Hp53 : digits pp <= 53) by (apply digits_le; lia).
  assert (Hpge : digits pc + digits j - 1 <= digits pp).
  { apply digits_ge. rewrite Epp, <- Epc.
    replace (digits pc + digits j - 1 - 1) with ((digits pc - 1) + (digits j - 1)) by lia.
    rewrite Z.pow_add_r by lia.
    assert (0 < 2 ^ (digits pc - 1)) by (apply Z.pow_pos_nonneg; lia).
    assert (0 < 2 ^ (digits j - 1)) by (apply Z.pow_pos_nonneg; lia). nia. }
  unfold SFmul. rewrite xorb_false_r.
  set (k := 53 + digits pp - digits pc - digits j).
  assert (Hk : 0 <= k) by (unfold k; lia).
  assert (Eq : Z.pos (mc * mj) = Z.pos mp * 2 ^ k).
  { assert (Epow : 2 ^ (53 - digits pc) * 2 ^ (53 - digits j) =
                   2 ^ (53 - digits pp) * 2 ^ k)
      by (rewrite <- !Z.pow_add_r by lia; f_equal; unfold k; lia).
    rewrite Pos2Z.inj_mul, Hvc, Hvj, Hvp.
    change (Z.abs (Z.pos j)) with (Z.pos j).
    transitivity (Z.abs c * Z.pos j * (2 ^ (53 - digits pc) * 2 ^ (53 - digits j)));
      [ring | rewrite Epow; ring]. }
  rewrite Eq, binary_round_aux_shifted by (unfold k; lia).
  f_equal. f_equal; [|unfold k; lia].
  destruct (c <? 0) eqn:E1, (c * Z.pos j <? 0) eqn:E2; try reflexivity; lia.
Qed.

(** [int(c * float(j))] is [c * j] as long as the product stays below
    2^53. *)
Lemma scaled_exact (c : Z) (j : positive) (fj : float) :
  Z.pos j < 2 ^ 53 -> Z.abs c * Z.pos j < 2 ^ 53 ->
  of_int (Z.pos j) = Return fj ->
  scaled c fj = Return (c * Z.pos j).
Proof.
  intros Hj Hb Hfj. unfold scaled.
  pose proof (int_mul_float_exact c j fj Hj Hb Hfj) as Hm.
  assert (Hz : Z.abs (c * Z.pos j) < 2 ^ 53) by (rewrite Z.abs_mul; lia).
  destruct (of_int (c * Z.pos j)) as [p|e] eqn:Ep.
  - rewrite Hm. cbn [rbind]. apply to_int_of_int; assumption.
  - exfalso. destruct (Z.eq_dec (c * Z.pos j) 0) as [E0 | E0].
    + rewrite E0 in Ep. discriminate Ep.
    + destruct (of_int_normal _ E0 Hz) as (m & Ho & _). rewrite Ho in Ep. discriminate Ep.
Qed.

End Float64Exact.

Section ZoomFacts.

Import Float64 Float64Facts Float64Exact.

Lemma int32_times_factor (c j : Z) :
  int32 c -> 0 < j < 2 ^ 22 -> Z.abs c * j < 2 ^ 53.
Proof.
  unfold int32. intros Hc Hj.
  assert (Z.abs c <= 2 ^ 31) by lia.
  apply Z.le_lt_trans with (2 ^ 31 * j); [apply Z.mul_le_mono_nonneg_r; lia | lia].
Qed.

(** When the image is a whole number of times as wide and as high as its
    rendering, the four products are exact. *)
Lemma scale_roi_exact (r : QRect) (dw dh jx jy : Z) :
  0 < dw -> 0 < dh -> 0 < jx -> 0 < jy ->
  jx * dw < 2 ^ 22 -> jy * dh < 2 ^ 22 ->
  int32 (rect_x r) -> int32 (rect_y r) -> int32 (rect_width r) -> int32 (rect_height r) ->
  scale_roi r (jx * dw) (jy * dh) dw dh =
  Return (rect_x r * jx, rect_y r * jy, rect_width r * jx, rect_height r * jy).
Proof.
  intros Hdw Hdh Hjx Hjy Hbx Hby Hx Hy Hw Hh.
  destruct dw as [|dw|dw]; try lia. destruct dh as [|dh|dh]; try lia.
  destruct jx as [|jx|jx]; try lia. destruct jy as [|jy|jy]; try lia.
  assert (Bx : Z.pos jx < 2 ^ 22) by nia. assert (By : Z.pos jy < 2 ^ 22) by nia.
  unfold scale_roi.
  rewrite (int_truediv_exact jx dw) by lia. rewrite (int_truediv_exact jy dh) by lia.
  destruct (of_int_normal (Z.pos jx) ltac:(lia) ltac:(simpl; lia)) as (mx & Ox & _).
  destruct (of_int_normal (Z.pos jy) ltac:(lia) ltac:(simpl; lia)) as (my & Oy & _).
  rewrite Ox, Oy. cbn [rbind].
  rewrite (scaled_exact (rect_x r) jx _ ltac:(lia)
             (int32_times_factor (rect_x r) (Z.pos jx) Hx ltac:(lia)) Ox).
  rewrite (scaled_exact (rect_y r) jy _ ltac:(lia)
             (int32_times_factor (rect_y r) (Z.pos jy) Hy ltac:(lia)) Oy).
  rewrite (scaled_exact (rect_width r) jx _ ltac:(lia)
             (int32_times_factor (rect_width r) (Z.pos jx) Hw ltac:(lia)) Ox).
  rewrite (scaled_exact (rect_height r) jy _ ltac:(lia)
             (int32_times_factor (rect_height r) (Z.pos jy) Hh ltac:(lia)) Oy).
  reflexivity.
Qed.

(** X8: when the image is a whole number of times as wide and as high as its
    rendering (in particular when it is shown at its own size), the mapping
    is exact: it multiplies each coordinate by the factor and clamps, with
    no loss to rounding or truncation. *)
Theorem mapping_exact_at_integer_zoom (r : QRect) (pm : QPixmap) (img : ndarray)
  (h w : nat) (rest : list nat) (jx jy : Z) :
  shape img = h :: w :: rest ->
  0 < pixmap_width pm -> 0 < pixmap_height pm -> 0 < jx -> 0 < jy ->
  Z.of_nat w = jx * pixmap_width pm -> Z.of_nat h = jy * pixmap_height pm ->
  Z.of_nat w < 2 ^ 22 -> Z.of_nat h < 2 ^ 22 ->
  int32 (rect_x r) -> int32 (rect_y r) -> int32 (rect_width r) -> int32 (rect_height r) ->
  get_roi_in_image_coords (MkImageCanvas (Some img) (Some pm) (Some r)) =
  Return (Some (clamp_roi (Z.of_nat w) (Z.of_nat h)
                  (rect_x r * jx) (rect_y r * jy)
                  (rect_width r * jx) (rect_height r * jy))).
Proof.
  intros Hs Hdw Hdh Hjx Hjy Ew Eh Hw Hh Hx Hy Hrw Hrh.
  unfold get_roi_in_image_coords. cbn [roi_rect image display_pixmap].
  rewrite Hs, Ew, Eh.
  rewrite (scale_roi_exact r (pixmap_width pm) (pixmap_height pm) jx jy)
    by (assumption || lia).
  reflexivity.
Qed.

End ZoomFacts.

(** * camera_utils.py *)

From stdpp Require Import pretty.

Local Open Scope Z_scope.

Module Camera.

(** The properties of a capture device that the code sets and reads. *)
Inductive cap_prop :=
| CAP_PROP_FRAME_WIDTH
| CAP_PROP_FRAME_HEIGHT
| CAP_PROP_FPS
| CAP_PROP_AUTOFOCUS.

(** What [str(e)] gives for the [AttributeError] of a method call on
    [None]. *)
Definition none_has_no_attribute (name : string) : string :=
  "'NoneType' object has no attribute '" +:+ name +:+ "'".

(** [str(n)] for an [int]. *)
Definition str_of_int (n : Z) : string := pretty n.

Section WithDevice.

(** OpenCV's [VideoCapture]: the state of a device, and its methods, each
    of which may raise and may change the device. *)
Variable capture : Type.
Variable VideoCapture : Z -> result capture.
Variable isOpened : capture -> result bool * capture.
Variable set : capture -> cap_prop -> Z -> result bool * capture.
Variable read : capture -> result (bool * option ndarray) * capture.
Variable release_device : capture -> result unit * capture.
Variable get : capture -> cap_prop -> result Float64.float * capture.

(** [cv2.waitKey(delay)]: the code of the key pressed, or -1; it raises
    where OpenCV was built without a window system. *)
Variable waitKey : Z -> result Z.

(** The fields of a [CameraCapture]. *)
Record CameraCapture := MkCameraCapture {
  camera : option capture;
  camera_index : Z;
  is_open : bool;
  frame_count : Z
}.

(** A camera object together with the console. *)
Record cam_world := MkCamWorld { cam : CameraCapture; printed : list string }.

Definition with_camera (c : CameraCapture) (d : capture) : CameraCapture :=
  MkCameraCapture (Some d) (camera_index c) (is_open c) (frame_count c).
Definition with_open (c : CameraCapture) (b : bool) : CameraCapture :=
  MkCameraCapture (camera c) (camera_index c) b (frame_count c).
Definition with_count (c : CameraCapture) (n : Z) : CameraCapture :=
  MkCameraCapture (camera c) (camera_index c) (is_open c) n.

(** The four [set] calls of [__init__], in their order; the first that
    raises ends them. *)
Fixpoint set_all (d : capture) (settings : list (cap_prop * Z)) : result unit * capture :=
  match settings with
  | [] => (Return tt, d)
  | (p, v) :: rest =>
      match set d p v with
      | (Return _, d') => set_all d' rest
      | (Raise e, d') => (Raise e, d')
      end
  end.

(** [CameraCapture(camera_index)]. *)
Definition init (index : Z) (out : list string) : cam_world :=
  let c0 := MkCameraCapture None index false 0 in
  let failed (c : CameraCapture) (e : exn) :=
    MkCamWorld (with_open c false) (out ++ ["Error initializing camera: " +:+ exn_str e]) in
  match VideoCapture index with
  | Raise e => failed c0 e
  | Return d =>
      match isOpened d with
      | (Raise e, d') => failed (with_camera c0 d') e
      | (Return false, d') =>
          MkCamWorld (with_open (with_camera c0 d') false)
            (out ++ ["Warning: Could not open camera " +:+ str_of_int index])
      | (Return true, d') =>
          match set_all d' [(CAP_PROP_FRAME_WIDTH, 640); (CAP_PROP_FRAME_HEIGHT, 480);
                            (CAP_PROP_FPS, 30); (CAP_PROP_AUTOFOCUS, 1)] with
          | (Return _, d'') => MkCamWorld (with_open (with_camera c0 d'') true) out
          | (Raise e, d'') => failed (with_camera c0 d'') e
          end
      end
  end.

(** [self.get_frame()]. *)
Definition get_frame (w : cam_world) : result (option ndarray) * cam_world :=
  let c := cam w in
  match is_open c, camera c with
  | true, Some d =>
      match read d with
      | (Return (true, frame), d') =>
          (Return frame,
           MkCamWorld (with_count (with_camera c d') (frame_count c + 1)) (printed w))
      | (Return (false, _), d') =>
          (Return None, MkCamWorld (with_camera c d') (printed w))
      | (Raise e, d') =>
          (Return None,
           MkCamWorld (with_camera c d')
             (printed w ++ ["Error capturing frame: " +:+ exn_str e]))
      end
  | _, _ => (Return None, w)
  end.

(** [self.get_frame_with_delay(delay_ms)]: the frame of [get_frame], after
    a [cv2.waitKey] that is inside no [try]. *)
Definition get_frame_with_delay (delay_ms : Z) (w : cam_world)
  : result (option ndarray) * cam_world :=
  let '(frame, w') := get_frame w in
  match waitKey delay_ms with
  | Return _ => (frame, w')
  | Raise e => (Raise e, w')
  end.

(** [self.release()]. *)
Definition release (w : cam_world) : result unit * cam_world :=
  let c := cam w in
  match camera c with
  | Some d =>
      match release_device d with
      | (Return _, d') =>
          (Return tt, MkCamWorld (with_open (with_camera c d') false) (printed w))
      | (Raise e, d') => (Raise e, MkCamWorld (with_camera c d') (printed w))
      end
  | None => (Return tt, w)
  end.

(** [self.is_available()], [self.get_frame_count()] and
    [self.reset_frame_count()]. *)
Definition is_available (w : cam_world) : bool := is_open (cam w).
Definition get_frame_count (w : cam_world) : Z := frame_count (cam w).
Definition reset_frame_count (w : cam_world) : cam_world :=
  MkCamWorld (with_count (cam w) 0) (printed w).

(** The body shared by [set_resolution] and [set_fps]: when the camera is
    open, the [set] calls inside [try], with [label] in the printed line. *)
Definition try_set (label : string) (settings : list (cap_prop * Z)) (w : cam_world)
  : result bool * cam_world :=
  let c := cam w in
  if is_open c then
    match camera c with
    | Some d =>
        match set_all d settings with
        | (Return _, d') => (Return true, MkCamWorld (with_camera c d') (printed w))
        | (Raise e, d') =>
            (Return false,
             MkCamWorld (with_camera c d') (printed w ++ [label +:+ exn_str e]))
        end
    | None =>
        (Return false,
         MkCamWorld c (printed w ++ [label +:+ none_has_no_attribute "set"]))
    end
  else (Return false, w).

(** [self.set_resolution(width, height)] and [self.set_fps(fps)]. *)
Definition set_resolution (width height : Z) (w : cam_world) : result bool * cam_world :=
  try_set "Error setting resolution: "
    [(CAP_PROP_FRAME_WIDTH, width); (CAP_PROP_FRAME_HEIGHT, height)] w.
Definition set_fps (fps : Z) (w : cam_world) : result bool * cam_world :=
  try_set "Error setting FPS: " [(CAP_PROP_FPS, fps)] w.

(** [self.get_resolution()]. *)
Definition get_resolution (w : cam_world) : result (Z * Z) * cam_world :=
  let c := cam w in
  if is_open c then
    match camera c with
    | Some d =>
        match get d CAP_PROP_FRAME_WIDTH with
        | (Return fw, d') =>
            match Float64.to_int fw with
            | Return width =>
                match get d' CAP_PROP_FRAME_HEIGHT with
                | (Return fh, d'') =>
                    match Float64.to_int fh with
                    | Return height =>
                        (Return (width, height),
                         MkCamWorld (with_camera c d'') (printed w))
                    | Raise _ =>
                        (Return (0, 0), MkCamWorld (with_camera c d'') (printed w))
                    end
                | (Raise _, d'') =>
                    (Return (0, 0), MkCamWorld (with_camera c d'') (printed w))
                end
            | Raise _ => (Return (0, 0), MkCamWorld (with_camera c d') (printed w))
            end
        | (Raise _, d') => (Return (0, 0), MkCamWorld (with_camera c d') (printed w))
        end
    | None => (Return (0, 0), w)
    end
  else (Return (0, 0), w).

(** One call on a camera object, and what it returned. *)
Inductive call :=
| CallGetFrame
| CallGetFrameWithDelay (delay_ms : Z)
| CallRelease
| CallResetFrameCount
| CallSetResolution (width height : Z)
| CallSetFps (fps : Z)
| CallGetResolution.

Inductive answer :=
| Frame (f : option ndarray)
| Flag (b : bool)
| Size (wh : Z * Z)
| Done
| Raised (e : exn).

Definition answer_of {A} (wrap : A -> answer) (r : result A) : answer :=
  match r with
  | Return a => wrap a
  | Raise e => Raised e
  end.

Definition run_call (k : call) (w : cam_world) : answer * cam_world :=
  match k with
  | CallGetFrame => let '(r, w') := get_frame w in (answer_of Frame r, w')
  | CallGetFrameWithDelay delay_ms =>
      let '(r, w') := get_frame_with_delay delay_ms w in (answer_of Frame r, w')
  | CallRelease => let '(r, w') := release w in (answer_of (fun _ => Done) r, w')
  | CallResetFrameCount => (Done, reset_frame_count w)
  | CallSetResolution width height =>
      let '(r, w') := set_resolution width height w in (answer_of Flag r, w')
  | CallSetFps fps => let '(r, w') := set_fps fps w in (answer_of Flag r, w')
  | CallGetResolution => let '(r, w') := get_resolution w in (answer_of Size r, w')
  end.

(** A sequence of calls, with the answers in order. *)
Fixpoint run_calls (ks : list call) (w : cam_world) : list answer * cam_world :=
  match ks with
  | [] => ([], w)
  | k :: ks' =>
      let '(a, w') := run_call k w in
      let '(answers, w'') := run_calls ks' w' in
      (a :: answers, w'')
  end.

(** The answer a closed camera gives to a call; [get_frame_with_delay]
    gives that of [get_frame], unless its [cv2.waitKey] raises. *)
Definition closed_answer (k : call) (a : answer) : Prop :=
  match k with
  | CallGetFrame => a = Frame None
  | CallGetFrameWithDelay _ => a = Frame None \/ exists e, a = Raised e
  | CallRelease => a = Done \/ exists e, a = Raised e
  | CallResetFrameCount => a = Done
  | CallSetResolution _ _ => a = Flag false
  | CallSetFps _ => a = Flag false
  | CallGetResolution => a = Size (0, 0)
  end.

(** The number of frames among the answers, and of calls of [get_frame],
    made directly or by [get_frame_with_delay], among the calls. *)
Fixpoint frames_in (answers : list answer) : Z :=
  match answers with
  | [] => 0
  | Frame (Some _) :: rest => 1 + frames_in rest
  | _ :: rest => frames_in rest
  end.
Fixpoint reads_in (ks : list call) : Z :=
  match ks with
  | [] => 0
  | CallGetFrame :: rest => 1 + reads_in rest
  | CallGetFrameWithDelay _ :: rest => 1 + reads_in rest
  | _ :: rest => reads_in rest
  end.

(** An open camera object has a device. *)
Definition consistent (c : CameraCapture) : Prop :=
  is_open c = true -> camera c <> None.

(** ** Properties of the camera object *)

(** Splits the goal along every [match] on a call of the device. *)
Ltac split_device_calls :=
  repeat match goal with
         | H : context [match ?x with _ => _ end] |- _ => destruct x eqn:?
         | |- context [match ?x with _ => _ end] => destruct x eqn:?
         | _ => progress simplify_eq/=
         end.

(** One call on a closed camera: it stays closed, answers as a closed
    camera does, prints nothing and keeps its count unless that is reset. *)
Lemma closed_call (k : call) (w : cam_world) :
  is_open (cam w) = false ->
  is_open (cam (snd (run_call k w))) = false /\
  closed_answer k (fst (run_call k w)) /\
  printed (snd (run_call k w)) = printed w.
Proof.
  intros Hc. destruct w as [c out]. simpl in Hc.
  destruct k; unfold run_call, get_frame_with_delay, get_frame, release,
    set_resolution, set_fps, try_set, get_resolution, reset_frame_count;
    simpl; rewrite ?Hc;
    split_device_calls; simpl; rewrite ?Hc; eauto.
Qed.

(** X11: once a camera is closed it stays closed, whatever is called on it and
    whatever the device does: every later [get_frame] returns [None],
    [set_resolution] and [set_fps] return [False], [get_resolution] returns
    (0, 0), and nothing is printed. *)
Theorem closed_camera_stays_closed (ks : list call) (w : cam_world) :
  is_open (cam w) = false ->
  is_available (snd (run_calls ks w)) = false /\
  Forall2 closed_answer ks (fst (run_calls ks w)) /\
  printed (snd (run_calls ks w)) = printed w.
Proof.
  revert w. induction ks as [|k ks IH]; intros w Hc; simpl.
  - repeat split; [exact Hc | constructor].
  - destruct (closed_call k w Hc) as (H1 & H2 & H3).
    destruct (run_call k w) as [a w1]. simpl in H1, H2, H3.
    destruct (IH w1 H1) as (I1 & I2 & I3).
    destruct (run_calls ks w1) as [answers w2]. simpl in *.
    repeat split; [exact I1 | constructor; assumption | congruence].
Qed.

(** One call other than a reset moves the count by the number of frames
    it returned at least, and by one at most and only for [get_frame]. *)
Lemma count_call (k : call) (w : cam_world) :
  k <> CallResetFrameCount ->
  frame_count (cam w) + frames_in [fst (run_call k w)]
    <= frame_count (cam (snd (run_call k w)))
    <= frame_count (cam w) + reads_in [k].
Proof.
  intros Hk. destruct w as [c out].
  destruct k; try congruence;
    unfold run_call, get_frame_with_delay, get_frame, release, set_resolution,
      set_fps, try_set, get_resolution; simpl;
    split_device_calls; simpl; lia.
Qed.

(** X12: between two resets the frame counter is at least the number of frames
    that [get_frame] has returned and at most the number of times it was
    called. *)
Theorem frame_count_counts_reads (ks : list call) (w : cam_world) :
  Forall (fun k => k <> CallResetFrameCount) ks ->
  get_frame_count w + frames_in (fst (run_calls ks w))
    <= get_frame_count (snd (run_calls ks w))
    <= get_frame_count w + reads_in ks.
Proof.
  unfold get_frame_count. intros Hks. revert w.
  induction Hks as [|k ks Hk _ IH]; intros w; [simpl; lia|].
  cbn [run_calls].
  pose proof (count_call k w Hk) as Hc.
  destruct (run_call k w) as [a w1]. specialize (IH w1).
  destruct (run_calls ks w1) as [answers w2]. cbn [fst snd] in *.
  assert (Ha : frames_in (a :: answers) = frames_in [a] + frames_in answers).
  { destruct a as [[f|]| | | |]; simpl; lia. }
  assert (Hr : reads_in (k :: ks) = reads_in [k] + reads_in ks).
  { destruct k; simpl; lia. }
  rewrite Ha, Hr. lia.
Qed.

(** The calls that can raise: [release], whose call of the device, and
    [get_frame_with_delay], whose [cv2.waitKey], are inside no [try]. *)
Definition may_raise (k : call) : Prop :=
  k = CallRelease \/ exists delay_ms, k = CallGetFrameWithDelay delay_ms.

(** One call keeps an open camera with its device and the count
    non-negative, and raises only if it is one of those two. *)
Lemma consistent_call (k : call) (w : cam_world) :
  consistent (cam w) -> 0 <= frame_count (cam w) ->
  consistent (cam (snd (run_call k w))) /\
  0 <= frame_count (cam (snd (run_call k w))) /\
  ((exists e, fst (run_call k w) = Raised e) -> may_raise k).
Proof.
  unfold consistent, may_raise. intros Hc Hn. destruct w as [c out]. simpl in Hc, Hn.
  destruct k; unfold run_call, get_frame_with_delay, get_frame, release,
    set_resolution, set_fps, try_set, get_resolution, reset_frame_count; simpl;
    split_device_calls; simpl;
    repeat split; simpl; try lia; try reflexivity;
    try (intros [? He]; discriminate He); try (intros _; now eauto);
    try (intros H1;
         first [exact (Hc H1) | discriminate | congruence
               | exfalso; exact (Hc eq_refl eq_refl)
               | exfalso; exact (Hc H1 eq_refl)]).
Qed.

Lemma init_consistent (index : Z) (out : list string) :
  consistent (cam (init index out)) /\ frame_count (cam (init index out)) = 0.
Proof.
  unfold consistent, init. split_device_calls; simpl; split; congruence.
Qed.

(** X13: from its construction on, through any sequence of calls of
    [get_frame], [get_frame_with_delay], [release], [reset_frame_count],
    [set_resolution], [set_fps] and [get_resolution], and whatever the
    device does, a camera object that is open has a device, its frame
    counter is never negative, and no call raises other than [release] and
    [get_frame_with_delay]. *)
Theorem camera_run_invariant (index : Z) (out : list string) (ks : list call) :
  consistent (cam (snd (run_calls ks (init index out)))) /\
  0 <= get_frame_count (snd (run_calls ks (init index out))) /\
  Forall2 (fun k a => (exists e, a = Raised e) -> may_raise k)
    ks (fst (run_calls ks (init index out))).
Proof.
  destruct (init_consistent index out) as [Hc Hn].
  assert (H0 : 0 <= frame_count (cam (init index out))) by lia. clear Hn.
  generalize dependent (init index out). intros w. revert w.
  unfold get_frame_count.
  induction ks as [|k ks IH]; intros w Hc Hn; simpl.
  - repeat split; [exact Hc | exact Hn | constructor].
  - destruct (consistent_call k w Hc Hn) as (H1 & H2 & H3).
    destruct (run_call k w) as [a w1]. simpl in H1, H2, H3.
    destruct (IH w1 H1 H2) as (I1 & I2 & I3).
    destruct (run_calls ks w1) as [answers w2]. simpl in *.
    repeat split; [exact I1 | exact I2 | constructor; assumption].
Qed.

End WithDevice.

End Camera.

(** * main.py: the canvas as a widget *)

Module Canvas.

(** A [QPoint]. *)
Record QPoint := MkQPoint { point_x : Z; point_y : Z }.

(** An [ImageCanvas] with the fields its event handlers use: those the
    mapping reads, the start of the selection, whether a selection is
    being made, and the size Qt gives the label. *)
Record Widget := MkWidget {
  fields : ImageCanvas;
  roi_start : option QPoint;
  roi_active : bool;
  label_size : Z * Z
}.

(** What reaches the canvas: calls of [set_image] and [clear_roi], and the
    mouse and resize events of Qt. *)
Inductive event :=
| SetImage (img : option ndarray)
| ClearRoi
| MousePress (pos : QPoint)
| MouseMove (pos : QPoint)
| MouseRelease
| Resize (size : Z * Z).

Section WithQt.

(** The pixmap [update_display] makes of an image for a label of a given
    size (the conversion to RGB, the [QImage], the scaling); it may raise.
    And [QRect(p1, p2).normalized()]. *)
Variable render : Z * Z -> ndarray -> result QPixmap.
Variable normalized_rect : QPoint -> QPoint -> QRect.

Definition with_fields (w : Widget) (c : ImageCanvas) : Widget :=
  MkWidget c (roi_start w) (roi_active w) (label_size w).

(** [self.update_display()]. *)
Definition update_display (w : Widget) : result unit * Widget :=
  let c := fields w in
  match image c with
  | None => (Return tt, w)
  | Some img =>
      match render (label_size w) img with
      | Return pm =>
          (Return tt, with_fields w (MkImageCanvas (image c) (Some pm) (roi_rect c)))
      | Raise e => (Raise e, w)
      end
  end.

(** [self.set_image(image)]. *)
Definition set_image (img : option ndarray) (w : Widget) : result unit * Widget :=
  let c := fields w in
  let stored := match img with Some a => Some (copy a) | None => None end in
  update_display (with_fields w (MkImageCanvas stored (display_pixmap c) None)).

(** [self.clear_roi()]. *)
Definition clear_roi (w : Widget) : result unit * Widget :=
  let c := fields w in
  update_display
    (MkWidget (MkImageCanvas (image c) (display_pixmap c) None) None (roi_active w)
       (label_size w)).

(** [self.mousePressEvent(event)], [self.mouseMoveEvent(event)] (drawing
    the rectangle changes no field) and [self.mouseReleaseEvent(event)]. *)
Definition mousePressEvent (pos : QPoint) (w : Widget) : Widget :=
  MkWidget (fields w) (Some pos) true (label_size w).

Definition mouseMoveEvent (pos : QPoint) (w : Widget) : Widget :=
  match roi_start w with
  | None => w
  | Some start =>
      let c := fields w in
      with_fields w
        (MkImageCanvas (image c) (display_pixmap c) (Some (normalized_rect start pos)))
  end.

Definition mouseReleaseEvent (w : Widget) : Widget :=
  MkWidget (fields w) (roi_start w) false (label_size w).

(** [self.resizeEvent(event)], after Qt has given the label its new size. *)
Definition resizeEvent (size : Z * Z) (w : Widget) : result unit * Widget :=
  let w' := MkWidget (fields w) (roi_start w) (roi_active w) size in
  match image (fields w') with
  | Some _ => update_display w'
  | None => (Return tt, w')
  end.

(** The widget after an event, whether or not its handler raised. *)
Definition handle (ev : event) (w : Widget) : Widget :=
  match ev with
  | SetImage img => snd (set_image img w)
  | ClearRoi => snd (clear_roi w)
  | MousePress pos => mousePressEvent pos w
  | MouseMove pos => mouseMoveEvent pos w
  | MouseRelease => mouseReleaseEvent w
  | Resize size => snd (resizeEvent size w)
  end.

Definition handle_all (evs : list event) (w : Widget) : Widget :=
  foldl (fun w ev => handle ev w) w evs.

Definition is_press (ev : event) : Prop := exists pos, ev = MousePress pos.
Definition is_move (ev : event) : Prop := exists pos, ev = MouseMove pos.

Lemma update_display_keeps_selection (w : Widget) :
  roi_rect (fields (snd (update_display w))) = roi_rect (fields w) /\
  roi_start (snd (update_display w)) = roi_start w.
Proof.
  unfold update_display. destruct (image (fields w)); [|auto].
  destruct (render _ _); auto.
Qed.

(** With no selection and no start point, no event but a press brings a
    selection about. *)
Lemma no_selection_without_press (evs : list event) (w : Widget) :
  roi_rect (fields w) = None -> roi_start w = None ->
  Forall (fun ev => ~ is_press ev) evs ->
  roi_rect (fields (handle_all evs w)) = None.
Proof.
  intros Hr Hs Hevs. revert w Hr Hs.
  induction Hevs as [|ev evs Hev _ IH]; intros w Hr Hs; [exact Hr|].
  unfold handle_all. simpl. apply IH.
  - destruct ev; simpl; unfold set_image, clear_roi, resizeEvent, mouseMoveEvent;
      try (destruct (update_display_keeps_selection
                       (with_fields w (MkImageCanvas
                          match img with Some a => Some (copy a) | None => None end
                          (display_pixmap (fields w)) None))) as [-> _]; reflexivity);
      try (destruct (update_display_keeps_selection
                       (MkWidget (MkImageCanvas (image (fields w))
                                    (display_pixmap (fields w)) None)
                          None (roi_active w) (label_size w))) as [-> _]; reflexivity);
      try (rewrite Hs; exact Hr); try exact Hr.
    simpl. destruct (image (fields w)); [|exact Hr].
    destruct (update_display_keeps_selection
                (MkWidget (fields w) (roi_start w) (roi_active w) size)) as [-> _].
    exact Hr.
  - destruct ev; simpl; unfold set_image, clear_roi, resizeEvent, mouseMoveEvent;
      try (destruct (update_display_keeps_selection
                       (with_fields w (MkImageCanvas
                          match img with Some a => Some (copy a) | None => None end
                          (display_pixmap (fields w)) None))) as [_ ->]; exact Hs);
      try (destruct (update_display_keeps_selection
                       (MkWidget (MkImageCanvas (image (fields w))
                                    (display_pixmap (fields w)) None)
                          None (roi_active w) (label_size w))) as [_ ->]; reflexivity);
      try (rewrite Hs; exact Hs); try exact Hs.
    + exfalso. apply Hev. eexists. reflexivity.
    + simpl. destruct (image (fields w)); [|exact Hs].
      destruct (update_display_keeps_selection
                  (MkWidget (fields w) (roi_start w) (roi_active w) size)) as [_ ->].
      exact Hs.
Qed.

(** With no selection, no event but a mouse move brings one about. *)
Lemma no_selection_without_move (evs : list event) (w : Widget) :
  roi_rect (fields w) = None ->
  Forall (fun ev => ~ is_move ev) evs ->
  roi_rect (fields (handle_all evs w)) = None.
Proof.
  intros Hr Hevs. revert w Hr.
  induction Hevs as [|ev evs Hev _ IH]; intros w Hr; [exact Hr|].
  unfold handle_all. simpl. apply IH.
  destruct ev; simpl; unfold set_image, clear_roi, resizeEvent;
    try (destruct (update_display_keeps_selection
                     (with_fields w (MkImageCanvas
                        match img with Some a => Some (copy a) | None => None end
                        (display_pixmap (fields w)) None))) as [-> _]; reflexivity);
    try (destruct (update_display_keeps_selection
                     (MkWidget (MkImageCanvas (image (fields w))
                                  (display_pixmap (fields w)) None)
                        None (roi_active w) (label_size w))) as [-> _]; reflexivity);
    try exact Hr.
  - exfalso. apply Hev. eexists. reflexivity.
  - simpl. destruct (image (fields w)); [|exact Hr].
    destruct (update_display_keeps_selection
                (MkWidget (fields w) (roi_start w) (roi_active w) size)) as [-> _].
    exact Hr.
Qed.

Lemma handle_all_app (evs1 evs2 : list event) (w : Widget) :
  handle_all (evs1 ++ evs2) w = handle_all evs2 (handle_all evs1 w).
Proof. unfold handle_all. apply foldl_app. Qed.

Lemma no_selection_no_roi (c : ImageCanvas) :
  roi_rect c = None -> get_roi_in_image_coords c = Return None.
Proof. intros Hc. unfold get_roi_in_image_coords. rewrite Hc. reflexivity. Qed.

(** X9: a new image discards the selection until the mouse moves again: in
    between, whatever else happens and whether or not rendering raises,
    the mapping returns [None]. *)
Theorem new_image_discards_selection (before after : list event)
  (img : option ndarray) (w : Widget) :
  Forall (fun ev => ~ is_move ev) after ->
  get_roi_in_image_coords
    (fields (handle_all (before ++ SetImage img :: after) w)) = Return None.
Proof.
  intros Hafter. apply no_selection_no_roi. rewrite handle_all_app.
  change (handle_all (SetImage img :: after) ?x)
    with (handle_all after (handle (SetImage img) x)).
  apply no_selection_without_move; [|exact Hafter]. simpl. unfold set_image.
  now destruct (update_display_keeps_selection
                  (with_fields (handle_all before w)
                     (MkImageCanvas
                        match img with Some a => Some (copy a) | None => None end
                        (display_pixmap (fields (handle_all before w))) None)))
    as [-> _].
Qed.

(** X10: [clear_roi] discards the selection and its start point: until the
    mouse is pressed again, whatever else happens, mouse moves included,
    the mapping returns [None]. *)
Theorem clear_roi_discards_selection (before after : list event) (w : Widget) :
  Forall (fun ev => ~ is_press ev) after ->
  get_roi_in_image_coords
    (fields (handle_all (before ++ ClearRoi :: after) w)) = Return None.
Proof.
  intros Hafter. apply no_selection_no_roi. rewrite handle_all_app.
  change (handle_all (ClearRoi :: after) ?x)
    with (handle_all after (handle ClearRoi x)).
  apply no_selection_without_press; [| |exact Hafter]; simpl; unfold clear_roi.
  - now destruct (update_display_keeps_selection
                    (MkWidget (MkImageCanvas (image (fields (handle_all before w)))
                                 (display_pixmap (fields (handle_all before w))) None)
                       None (roi_active (handle_all before w))
                       (label_size (handle_all before w)))) as [-> _].
  - now destruct (update_display_keeps_selection
                    (MkWidget (MkImageCanvas (image (fields (handle_all before w)))
                                 (display_pixmap (fields (handle_all before w))) None)
                       None (roi_active (handle_all before w))
                       (label_size (handle_all before w)))) as [_ ->].
Qed.

End WithQt.

End Canvas.

(** * The further properties on concrete inputs *)

Module MoreDoubles.

Import Doubles.

(** A table whose second row has a text and nothing else. *)
Definition short_table : gmap string (list pyval) :=
  <["text" := [PyStr "ab"; PyStr "cd"]]>
  (<["conf" := [PyInt 90]]>
  (<["left" := [PyInt 1]]>
  (<["top" := [PyInt 2]]>
  (<["width" := [PyInt 3]]>
  (<["height" := [PyInt 4]]> ∅))))).

(** An engine that reads a word with blanks around it. *)
Definition padded_string (a : ndarray) : result string := Return "  word ".

(** A device that delivers two frames and then none: its state is the
    number of frames left. *)
Definition two_frames (index : Z) : result nat := Return 2%nat.
Definition dev_isOpened (d : nat) : result bool * nat := (Return true, d).
Definition dev_set (d : nat) (p : Camera.cap_prop) (v : Z) : result bool * nat :=
  (Return true, d).
Definition dev_read (d : nat) : result (bool * option ndarray) * nat :=
  match d with
  | S n => (Return (true, Some one_pixel), n)
  | O => (Return (false, None), O)
  end.
Definition dev_release (d : nat) : result unit * nat := (Return tt, O).
Definition dev_get (d : nat) (p : Camera.cap_prop) : result Float64.float * nat :=
  (Return (S754_finite false 5 7), d).

(** A key is never pressed; and an OpenCV built without a window system. *)
Definition dev_waitKey (delay : Z) : result Z := Return (-1).
Definition no_window (delay : Z) : result Z :=
  Raise (Exn Cv2Error "The function is not implemented").

(** A camera on that device, as constructed, and after [release]. *)
Definition new_camera : Camera.cam_world nat :=
  Camera.init nat two_frames dev_isOpened dev_set 0 [].
Definition released_camera : Camera.cam_world nat :=
  snd (Camera.release nat dev_release new_camera).

(** A rendering that always gives four by four, and the rectangle between
    two points. *)
Definition render_4x4 (size : Z * Z) (a : ndarray) : result QPixmap :=
  Return (MkQPixmap 4 4).
Definition rect_between (p q : Canvas.QPoint) : QRect :=
  MkQRect (Z.min (Canvas.point_x p) (Canvas.point_x q))
          (Z.min (Canvas.point_y p) (Canvas.point_y q))
          (Z.abs (Canvas.point_x q - Canvas.point_x p))
          (Z.abs (Canvas.point_y q - Canvas.point_y p)).

(** A canvas on which nothing has happened. *)
Definition blank_canvas : Canvas.Widget :=
  Canvas.MkWidget (MkImageCanvas None None None) None false (400, 400).

(** A drag from (1, 1) to (3, 2). *)
Definition drag : list Canvas.event :=
  [Canvas.SetImage (Some two_by_two); Canvas.MousePress (Canvas.MkQPoint 1 1);
   Canvas.MouseMove (Canvas.MkQPoint 3 2); Canvas.MouseRelease].

End MoreDoubles.

Section ConcreteExtras.

Import Doubles MoreDoubles.

Lemma detect_drops_all_on_short_column_witness :
  exists line,
    get_text_boxes (fun _ => Return short_table) no_int (Some one_pixel) fresh =
      (Return [],
       after_failed_call (Call_image_to_data one_pixel) line fresh).
Proof.
  apply (detect_drops_all_on_short_column (fun _ => Return short_table) no_int
           one_pixel short_table [PyStr "ab"; PyStr "cd"] [PyInt 90] fresh).
  - vm_compute. discriminate.
  - reflexivity.
  - reflexivity.
  - reflexivity.
  - simpl. lia.
Defined.

Lemma recognize_returns_stripped_text_witness :
  extract_text_with_boxes padded_string (Some one_pixel) fresh =
    (Return (strip "  word "), after_call (Call_image_to_string one_pixel) fresh) /\
  no_outer_space (strip "  word ") /\
  exists p q, list_ascii_of_string "  word " =
              p ++ list_ascii_of_string (strip "  word ") ++ q.
Proof.
  apply (recognize_returns_stripped_text padded_string one_pixel "  word " fresh).
  - vm_compute. discriminate.
  - reflexivity.
Defined.

(** A no-break space (U+00A0) in front and an ideographic space (U+3000)
    behind are stripped like the ASCII space. *)
Example strip_unicode_space :
  strip (String (ascii_of_nat 194) (String (ascii_of_nat 160)
           ("ab c " +:+ String (ascii_of_nat 227) (String (ascii_of_nat 128)
              (String (ascii_of_nat 128) EmptyString))))) = "ab c".
Proof. reflexivity. Qed.

Lemma roi_ocr_on_whole_image_witness :
  extract_text_from_roi gray_of_bgr blur_flat adaptive_flat morph_flat floor_min padded_string
    (Some two_by_two) (0, 0, Z.of_nat 2, Z.of_nat 2) "Threshold" 127 fresh =
  full_image_text gray_of_bgr blur_flat adaptive_flat morph_flat floor_min padded_string
    (Some two_by_two) "Threshold" 127 fresh.
Proof.
  apply (roi_ocr_on_whole_image gray_of_bgr blur_flat adaptive_flat morph_flat floor_min
           padded_string two_by_two 2%nat 2%nat [] "Threshold" 127 fresh);
    reflexivity.
Defined.

Lemma threshold_mode_is_antitone_witness :
  exists out1 out2,
    preprocess_image gray_of_bgr blur_flat adaptive_flat morph_flat floor_min
      (Some two_by_two) "Threshold" 5 = Return (Some out1) /\
    preprocess_image gray_of_bgr blur_flat adaptive_flat morph_flat floor_min
      (Some two_by_two) "Threshold" 200 = Return (Some out2) /\
    shape out1 = shape out2 /\
    Forall2 (fun p2 p1 => p2 <= p1) (data out2) (data out1).
Proof.
  apply (threshold_mode_is_antitone gray_of_bgr blur_flat adaptive_flat morph_flat floor_min
           two_by_two two_by_two 5 200).
  - vm_compute. discriminate.
  - reflexivity.
  - lia.
  - lia.
  - lia.
Defined.

(** Outside the range of a C [int] the order of two thresholds says nothing:
    where the conversion of 2^31 gives the least [int], the threshold 200
    turns every pixel of value 9 off and the threshold 2^31 turns it on. *)
Example threshold_out_of_range :
  preprocess_image gray_of_bgr blur_flat adaptive_flat morph_flat floor_min
    (Some two_by_two) "Threshold" 200 =
    Return (Some (NdArray [2%nat; 2%nat] [0; 0; 0; 0])) /\
  preprocess_image gray_of_bgr blur_flat adaptive_flat morph_flat floor_min
    (Some two_by_two) "Threshold" (2 ^ 31) =
    Return (Some (NdArray [2%nat; 2%nat] [255; 255; 255; 255])).
Proof. split; reflexivity. Qed.

(** On an image of no rows the mapping returns a region of height 1, and
    the piece cut out there is empty. *)
Example mapped_roi_on_image_of_no_rows :
  get_roi_in_image_coords
    (MkImageCanvas (Some (NdArray [0%nat; 5%nat] [])) (Some (MkQPixmap 4 4))
       (Some (MkQRect 0 0 2 2))) = Return (Some (0, 0, 2, 1)) /\
  crop (Some (NdArray [0%nat; 5%nat] [])) 0 0 2 1 = Return (NdArray [0%nat; 2%nat] []).
Proof. split; vm_compute; reflexivity. Qed.

Lemma mapped_roi_crop_is_nonempty_witness :
  exists x' y' w' h' roi,
    get_roi_in_image_coords
      (MkImageCanvas (Some two_by_two) (Some (MkQPixmap 4 4))
         (Some (MkQRect (-3) 1 10 2))) = Return (Some (x', y', w', h')) /\
    crop (Some two_by_two) x' y' w' h' = Return roi /\
    shape roi = Z.to_nat h' :: Z.to_nat w' :: [] /\
    Numpy.size roi <> 0%nat.
Proof.
  apply (mapped_roi_crop_is_nonempty (MkQRect (-3) 1 10 2) (MkQPixmap 4 4) two_by_two
           2%nat 2%nat []); try reflexivity; try (simpl; lia);
    apply int32_small; simpl; lia.
Defined.

Lemma mapping_exact_at_integer_zoom_witness :
  get_roi_in_image_coords
    (MkImageCanvas (Some two_by_two) (Some (MkQPixmap 1 1))
       (Some (MkQRect 0 0 1 1))) =
  Return (Some (clamp_roi (Z.of_nat 2) (Z.of_nat 2) (0 * 2) (0 * 2) (1 * 2) (1 * 2))).
Proof.
  apply (mapping_exact_at_integer_zoom (MkQRect 0 0 1 1) (MkQPixmap 1 1) two_by_two
           2%nat 2%nat [] 2 2); try reflexivity; try (simpl; lia);
    apply int32_small; simpl; lia.
Defined.

Lemma closed_camera_stays_closed_witness :
  Camera.is_available nat
    (snd (Camera.run_calls nat dev_set dev_read dev_release dev_get dev_waitKey
            [Camera.CallGetFrame; Camera.CallSetFps 30; Camera.CallGetResolution]
            released_camera)) = false /\
  Forall2 Camera.closed_answer
    [Camera.CallGetFrame; Camera.CallSetFps 30; Camera.CallGetResolution]
    (fst (Camera.run_calls nat dev_set dev_read dev_release dev_get dev_waitKey
            [Camera.CallGetFrame; Camera.CallSetFps 30; Camera.CallGetResolution]
            released_camera)) /\
  Camera.printed nat
    (snd (Camera.run_calls nat dev_set dev_read dev_release dev_get dev_waitKey
            [Camera.CallGetFrame; Camera.CallSetFps 30; Camera.CallGetResolution]
            released_camera)) = Camera.printed nat released_camera.
Proof.
  apply (Camera.closed_camera_stays_closed nat dev_set dev_read dev_release dev_get dev_waitKey
           [Camera.CallGetFrame; Camera.CallSetFps 30; Camera.CallGetResolution]
           released_camera).
  reflexivity.
Defined.

Lemma frame_count_counts_reads_witness :
  Camera.get_frame_count nat new_camera +
  Camera.frames_in
    (fst (Camera.run_calls nat dev_set dev_read dev_release dev_get dev_waitKey
            [Camera.CallGetFrame; Camera.CallGetFrame; Camera.CallGetFrame;
             Camera.CallGetResolution] new_camera))
  <= Camera.get_frame_count nat
       (snd (Camera.run_calls nat dev_set dev_read dev_release dev_get dev_waitKey
               [Camera.CallGetFrame; Camera.CallGetFrame; Camera.CallGetFrame;
                Camera.CallGetResolution] new_camera))
  <= Camera.get_frame_count nat new_camera +
     Camera.reads_in
       [Camera.CallGetFrame; Camera.CallGetFrame; Camera.CallGetFrame;
        Camera.CallGetResolution].
Proof.
  apply (Camera.frame_count_counts_reads nat dev_set dev_read dev_release dev_get dev_waitKey
           [Camera.CallGetFrame; Camera.CallGetFrame; Camera.CallGetFrame;
            Camera.CallGetResolution] new_camera).
  repeat constructor; discriminate.
Defined.

(** The same run, evaluated: two frames, then [None]; the counter is 2
    and the resolution 640 by 640. *)
Example camera_run_value :
  Camera.run_calls nat dev_set dev_read dev_release dev_get dev_waitKey
    [Camera.CallGetFrame; Camera.CallGetFrame; Camera.CallGetFrame;
     Camera.CallGetResolution] new_camera =
  ([Camera.Frame (Some one_pixel); Camera.Frame (Some one_pixel); Camera.Frame None;
    Camera.Size (640, 640)],
   Camera.MkCamWorld nat (Camera.MkCameraCapture nat (Some 0%nat) 0 true 2) []).
Proof. vm_compute. reflexivity. Qed.

(** Without a window system [get_frame_with_delay] reads a frame, counts
    it, and raises. *)
Example delayed_frame_raises :
  Camera.run_calls nat dev_set dev_read dev_release dev_get no_window
    [Camera.CallGetFrameWithDelay 33] new_camera =
  ([Camera.Raised (Exn Cv2Error "The function is not implemented")],
   Camera.MkCamWorld nat (Camera.MkCameraCapture nat (Some 1%nat) 0 true 1) []).
Proof. vm_compute. reflexivity. Qed.

Lemma not_move_release : ~ Canvas.is_move Canvas.MouseRelease.
Proof. intros [pos H]. discriminate H. Qed.

Lemma not_press_move (pos : Canvas.QPoint) : ~ Canvas.is_press (Canvas.MouseMove pos).
Proof. intros [pos' H]. discriminate H. Qed.

Lemma new_image_discards_selection_witness :
  get_roi_in_image_coords
    (Canvas.fields
       (Canvas.handle_all render_4x4 rect_between
          (drag ++ Canvas.SetImage (Some one_pixel) :: [Canvas.MouseRelease])
          blank_canvas)) = Return None.
Proof.
  apply (Canvas.new_image_discards_selection render_4x4 rect_between drag
           [Canvas.MouseRelease] (Some one_pixel) blank_canvas).
  constructor; [exact not_move_release | constructor].
Defined.

Lemma clear_roi_discards_selection_witness :
  get_roi_in_image_coords
    (Canvas.fields
       (Canvas.handle_all render_4x4 rect_between
          (drag ++ Canvas.ClearRoi :: [Canvas.MouseMove (Canvas.MkQPoint 2 2)])
          blank_canvas)) = Return None.
Proof.
  apply (Canvas.clear_roi_discards_selection render_4x4 rect_between drag
           [Canvas.MouseMove (Canvas.MkQPoint 2 2)] blank_canvas).
  constructor; [apply not_press_move | constructor].
Defined.

(** Before the new image, the drag had selected a region; and a mouse move
    after a new image selects one again from the old start point. *)
Example drag_selects_a_region :
  get_roi_in_image_coords
    (Canvas.fields (Canvas.handle_all render_4x4 rect_between drag blank_canvas)) =
    Return (Some (0, 0, 1, 1)) /\
  get_roi_in_image_coords
    (Canvas.fields
       (Canvas.handle_all render_4x4 rect_between
          (drag ++ [Canvas.SetImage (Some two_by_two);
                    Canvas.MouseMove (Canvas.MkQPoint 3 2)]) blank_canvas)) =
    Return (Some (0, 0, 1, 1)).
Proof. split; vm_compute; reflexivity. Qed.

End ConcreteExtras.
